(** * xferd: the file-movement engine, embedded from the Go sources

    The development follows the packages of the repository:
    [internal/watcher] (ignore rules, stability prober),
    [internal/uploader] (retry loop, dispatcher queue, worker lifecycle),
    [internal/shadow] (archive names) and [internal/ingress] (sanitizers,
    containment check, multipart handler).

    Go strings are byte strings and are modelled by [string]; durations and
    instants are integers ([Z], nanoseconds); the operating system, the
    clock and the network are explicit inputs of the functions that use
    them.  The functions of Go's standard library that the code calls
    ([strings], [path/filepath] on a Unix target) are modelled in the first
    two modules. *)

From Stdlib Require Import ZArith Ascii String Lia.
From stdpp Require Import base list strings gmap.

Local Open Scope Z_scope.

(* ===================================================================== *)
(** * Go's [strings] package (the functions the code uses) *)
(* ===================================================================== *)

Module GoStrings.

(** [strings.HasPrefix(s, prefix)] *)
Fixpoint HasPrefix (s pre : string) : bool :=
  match pre, s with
  | EmptyString, _ => true
  | String _ _, EmptyString => false
  | String a pre', String b s' =>
      if Ascii.eqb a b then HasPrefix s' pre' else false
  end.

(** [strings.Contains(s, substr)] *)
Fixpoint Contains (s sub : string) : bool :=
  HasPrefix s sub ||
  match s with
  | EmptyString => false
  | String _ s' => Contains s' sub
  end.

(** [strings.Split(s, sep)] for a one-byte separator: the pieces between
    the separators, in order; the empty string gives one empty piece. *)
Fixpoint Split (s : string) (sep : ascii) : list string :=
  match s with
  | EmptyString => [EmptyString]
  | String c s' =>
      if Ascii.eqb c sep then EmptyString :: Split s' sep
      else match Split s' sep with
           | h :: t => String c h :: t
           | [] => [String c EmptyString]
           end
  end.

(** [strings.SplitN(s, sep, 2)]: cut at the first separator only. *)
Fixpoint SplitN2 (s : string) (sep : ascii) : list string :=
  match s with
  | EmptyString => [EmptyString]
  | String c s' =>
      if Ascii.eqb c sep then [EmptyString; s']
      else match SplitN2 s' sep with
           | h :: t => String c h :: t
           | [] => [String c EmptyString]
           end
  end.

(** [strings.Join(elems, sep)] *)
Fixpoint Join (elems : list string) (sep : string) : string :=
  match elems with
  | [] => EmptyString
  | [e] => e
  | e :: rest => e +:+ sep +:+ Join rest sep
  end.

(** [strings.TrimPrefix(s, prefix)] *)
Fixpoint dropn (n : nat) (s : string) : string :=
  match n, s with
  | O, _ => s
  | S _, EmptyString => EmptyString
  | S n', String _ s' => dropn n' s'
  end.

Definition TrimPrefix (s pre : string) : string :=
  if HasPrefix s pre then dropn (String.length pre) s else s.

(** The slice [s[i:]] and the comparison [s[len(s)-len(suffix):] == suffix]. *)
Definition slice_from (s : string) (i : nat) : string := dropn i s.

(** [s] ends with [suffix] (what [strings.HasSuffix] decides). *)
Definition ends_with (s suffix : string) : Prop :=
  exists pre, s = pre +:+ suffix.

End GoStrings.

(* ===================================================================== *)
(** * Go's [path/filepath] package on a Unix target

    [Separator] is the slash, there are no volume names, and [ToSlash] and
    [FromSlash] are the identity.  [Clean] is given by its lexical rules:
    runs of separators collapse, [.] elements disappear, an inner [..]
    removes the element before it, a [..] at the root disappears, and the
    empty result is [.]. *)
(* ===================================================================== *)

Module Filepath.
Import GoStrings.

Definition Separator : ascii := "/"%char.
Definition SeparatorString : string := "/".

Definition ToSlash (path : string) : string := path.
Definition FromSlash (path : string) : string := path.

Definition IsAbs (path : string) : bool := HasPrefix path "/".

(** One step of [Clean]'s scan: [out] is the list of elements written so
    far (in order), [e] the next element of the input. *)
Definition clean_step (rooted : bool) (out : list string) (e : string)
  : list string :=
  if String.eqb e "" then out
  else if String.eqb e "." then out
  else if String.eqb e ".." then
    match last out with
    | Some top =>
        if String.eqb top ".." then out ++ [".."] else removelast out
    | None => if rooted then out else [".."]
    end
  else out ++ [e].

Definition clean_elems (rooted : bool) (elems : list string) : list string :=
  fold_left (clean_step rooted) elems [].

Definition Clean (path : string) : string :=
  if String.eqb path "" then "."
  else
    let rooted := HasPrefix path "/" in
    let out := clean_elems rooted (Split path Separator) in
    if rooted then "/" +:+ Join out "/"
    else match out with
         | [] => "."
         | _ => Join out "/"
         end.

(** [filepath.Join]: the elements from the first non-empty one on are
    joined with the separator and cleaned; no such element gives the
    empty string. *)
Fixpoint Join (elem : list string) : string :=
  match elem with
  | [] => ""
  | e :: rest =>
      if String.eqb e "" then Join rest
      else Clean (GoStrings.Join elem "/")
  end.

(** [filepath.Abs]; [getwd] is the result of [os.Getwd], [None] when it
    fails. *)
Definition Abs (getwd : option string) (path : string) : option string :=
  if IsAbs path then Some (Clean path)
  else match getwd with
       | None => None
       | Some wd => Some (Join [wd; path])
       end.

(** [filepath.Base]: the last element of the path, trailing separators
    removed first; [.] for the empty path, the separator for a path of
    separators only. *)
Fixpoint strip_trailing (s : string) : string :=
  match s with
  | EmptyString => EmptyString
  | String c s' =>
      match strip_trailing s' with
      | EmptyString => if Ascii.eqb c Separator then EmptyString
                       else String c EmptyString
      | r => String c r
      end
  end.

Definition last_elem (s : string) : string :=
  match last (Split s Separator) with
  | Some e => e
  | None => EmptyString
  end.

Definition Base (path : string) : string :=
  if String.eqb path "" then "."
  else
    let p := last_elem (strip_trailing path) in
    if String.eqb p "" then SeparatorString else p.

(** An ordinary element of a path: not empty, not [.] or [..], and
    without a separator. *)
Definition plain (e : string) : Prop :=
  e <> "" /\ e <> "." /\ e <> ".." /\ Contains e "/" = false.

(** A cleaned absolute path: the separator, then ordinary elements
    joined by separators. *)
Definition rooted_at (elems : list string) : string :=
  "/" +:+ GoStrings.Join elems "/".

End Filepath.

(* ===================================================================== *)
(** * internal/config: the values the core reads *)
(* ===================================================================== *)

Module Config.

Record StabilityConfig := {
  ConfirmationIntervalMs : Z;
  RequiredStableChecks : Z;
  MaxWaitMs : Z
}.

Definition Millisecond : Z := 1000000.
Definition Second : Z := 1000 * Millisecond.

Definition GetConfirmationInterval (s : StabilityConfig) : Z :=
  ConfirmationIntervalMs s * Millisecond.

Definition GetMaxWait (s : StabilityConfig) : Z :=
  MaxWaitMs s * Millisecond.

Record ShadowConfig := {
  Enabled : bool;
  Path : string;
  RetentionHours : Z
}.

Record DirectoryConfig := {
  Name : string;
  WatchPath : string;
  IngestPath : string;
  Ignore : list string;
  Stability : StabilityConfig;
  Shadow : ShadowConfig
}.

Definition GetIngestPath (d : DirectoryConfig) : string :=
  if negb (String.eqb (IngestPath d) "") then IngestPath d else WatchPath d.





End Config.

(* ===================================================================== *)
(** * internal/watcher: ignore rules *)
(* ===================================================================== *)

Module Watcher.
Import GoStrings.

(** What [os.Stat] reports of a file: size, modification instant, and
    whether it is a regular file. *)
Record FileInfo := {
  Size : Z;
  ModTime : Z;
  IsRegular : bool
}.

Definition IgnoredSuffixes : list string :=
  [".partial"; ".uploading"; ".tmp"; ".swp"; ".~"].

(** [base != "" && base[0] == '.'] *)
Definition starts_with_dot (base : string) : bool :=
  match base with
  | String c _ => Ascii.eqb c "."%char
  | EmptyString => false
  end.

(** [len(base) > len(suffix) && base[len(base)-len(suffix):] == suffix] *)
Definition suffix_test (base suffix : string) : bool :=
  (String.length suffix <? String.length base)%nat &&
  String.eqb
    (slice_from base (String.length base - String.length suffix)) suffix.

Section WithMatch.
(** [filepath.Match(pattern, name)] of the standard library: the pair
    (matched, err != nil).  The ignore rules are stated for every
    matcher. *)
Variable Match : string -> string -> bool * bool.

(** The loop of [matchesPathPattern], on the two lists of segments read
    from the right. *)
Fixpoint match_from_right (patternParts pathParts : list string) : bool :=
  match patternParts, pathParts with
  | [], _ => true
  | _ :: _, [] => false
  | part :: ps, pathPart :: qs =>
      match Match part pathPart with
      | (true, false) => match_from_right ps qs
      | _ => false
      end
  end.

Definition matchesPathPattern (pattern path : string) : bool :=
  let pattern := Filepath.ToSlash pattern in
  let path := Filepath.ToSlash path in
  let pattern := TrimPrefix pattern "/" in
  let path := TrimPrefix path "/" in
  let patternParts := Split pattern "/"%char in
  let pathParts := Split path "/"%char in
  if (length pathParts <? length patternParts)%nat then false
  else match_from_right (rev patternParts) (rev pathParts).

(** The body of the loop over the configured patterns. *)
Definition pattern_hits (path base pattern : string) : bool :=
  if Contains pattern "/" || Contains pattern "\" then
    matchesPathPattern pattern path
  else
    match Match pattern base with
    | (matched, err) => negb err && matched
    end.

Definition ShouldIgnore (path : string) (ignorePatterns : list string)
  : bool :=
  let base := Filepath.Base path in
  if starts_with_dot base then true
  else if existsb (pattern_hits path base) ignorePatterns then true
  else if existsb (suffix_test base) IgnoredSuffixes then true
  else false.

End WithMatch.

(** ** The stability prober *)

(** What one turn of the loop of [isStable] observes: the reading of
    [time.Since(start)] at the head of the loop, and the result of
    [os.Stat] on the path ([None] when it fails).  A world gives the
    observation of every turn; [time.Sleep(interval)] between two turns
    shows in the readings of the clock. *)
Record Observation := {
  since : Z;
  stat : option FileInfo
}.

Definition World := nat -> Observation.

(** The loop of [isStable]; [i] counts the turns, the other arguments
    are the local variables.  [None] when the fuel runs out. *)
Fixpoint isStable_loop (w : World) (maxWait requiredChecks : Z)
    (fuel i : nat) (lastSize lastModTime stableCount : Z)
  : option (bool * bool) :=
  match fuel with
  | O => None
  | S fuel' =>
      if since (w i) >? maxWait then Some (true, true)
      else
        match stat (w i) with
        | None => Some (false, false)
        | Some info =>
            let currentSize := Size info in
            let currentModTime := ModTime info in
            if (stableCount >? 0) && (currentSize =? lastSize)
               && (currentModTime =? lastModTime)
            then
              let stableCount := stableCount + 1 in
              if stableCount >=? requiredChecks then Some (true, false)
              else isStable_loop w maxWait requiredChecks fuel' (S i)
                     lastSize lastModTime stableCount
            else
              isStable_loop w maxWait requiredChecks fuel' (S i)
                currentSize currentModTime 1
        end
  end.

Definition isStable (w : World) (cfg : Config.StabilityConfig) (fuel : nat)
  : option (bool * bool) :=
  let maxWait := Config.GetMaxWait cfg in
  let requiredChecks := Config.RequiredStableChecks cfg in
  isStable_loop w maxWait requiredChecks fuel 0 0 0 0.

(** The policies that [DirectoryConfig.Validate] lets through. *)
Definition valid_policy (cfg : Config.StabilityConfig) : Prop :=
  Config.ConfirmationIntervalMs cfg > 0 /\
  Config.RequiredStableChecks cfg >= 1 /\
  Config.MaxWaitMs cfg > 0.

(** The clock of a world in which every [time.Sleep(interval)] lasts at
    least [interval]. *)
Definition sleeps (w : World) (interval : Z) : Prop :=
  0 <= since (w O) /\
  forall i, since (w i) + interval <= since (w (S i)).

(** A turn budget that outlasts [max_wait]. *)
Definition enough_fuel (cfg : Config.StabilityConfig) : nat :=
  S (S (Z.to_nat (Config.GetMaxWait cfg / Config.GetConfirmationInterval cfg))).

(** *** The vocabulary of the prober's contract *)

Definition sample (w : World) (j : nat) : option (Z * Z) :=
  match stat (w j) with
  | Some info => Some (Size info, ModTime info)
  | None => None
  end.

(** Sample [j] matches: its size and modification time equal those of
    the sample just before it.  The first sample has none before it. *)
Definition matches (w : World) (j : nat) : Prop :=
  match j with
  | O => False
  | S j' => exists s, sample w j = Some s /\ sample w j' = Some s
  end.

(** [n] consecutive matching samples, the last of them being sample [k]. *)
Definition streak (w : World) (n k : nat) : Prop :=
  (n <= k)%nat /\ forall j, (k - n < j <= k)%nat -> matches w j.

(** Every turn before turn [k] went on to the next one: in time and
    with the file present, and no streak of [n] was completed. *)
Definition running (w : World) (maxWait : Z) (n k : nat) : Prop :=
  (forall j, (j < k)%nat -> since (w j) <= maxWait /\ stat (w j) <> None) /\
  (forall k', (k' < k)%nat -> ~ streak w n k').

(** Stability is confirmed at sample [k]: the first streak of [n]
    matches ends there, before [max_wait] has elapsed. *)
Definition confirmed_at (w : World) (maxWait : Z) (n k : nat) : Prop :=
  running w maxWait n k /\
  since (w k) <= maxWait /\ stat (w k) <> None /\ streak w n k.

(** [max_wait] has elapsed at turn [k] with no streak of [n] before. *)
Definition timed_out_at (w : World) (maxWait : Z) (n k : nat) : Prop :=
  running w maxWait n k /\ since (w k) > maxWait.

(** The file is gone at turn [k]. *)
Definition vanished_at (w : World) (maxWait : Z) (n k : nat) : Prop :=
  running w maxWait n k /\ since (w k) <= maxWait /\ stat (w k) = None.

(** What the prober answers when [n] consecutive matches are asked for. *)
Definition outcome (w : World) (maxWait : Z) (n : nat) (r : bool * bool)
  : Prop :=
  (r = (true, false) /\ exists k, confirmed_at w maxWait n k) \/
  (r = (true, true) /\ exists k, timed_out_at w maxWait n k) \/
  (r = (false, false) /\ exists k, vanished_at w maxWait n k).

(** The number of consecutive matches after which the loop of
    [isStable] answers: the sample that starts a run sets [stableCount]
    to 1, so [requiredChecks] counts the samples of the run, and two
    samples are the least that can be compared. *)
Definition matches_needed (requiredChecks : Z) : nat :=
  Z.to_nat (Z.max 1 (requiredChecks - 1)).

(** ** The reconciliation scan *)

(** The part of the state of [LinuxWatcher] that the scan reads and
    writes: the two [sync.Map]s used as sets of paths. *)
Record LinuxWatcher := {
  config : Config.DirectoryConfig;
  processingFiles : gset string;
  enqueuedFiles : gset string
}.

(** The head of the callback that [performReconciliationScan] hands to
    [filepath.Walk], up to the call of [isStable]: either the callback
    returns early, or it goes on to probe the file, with the path stored
    in [processingFiles].  In both cases the callback returns nil, never
    [filepath.SkipDir]: the walk enters every directory. *)
Inductive Visit :=
| VisitReturn
| VisitProbe (w' : LinuxWatcher).

Definition scan_visit (Match : string -> string -> bool * bool)
    (w : LinuxWatcher) (path : string) (info : FileInfo) (walkErr : bool)
  : Visit :=
  if walkErr then VisitReturn
  else if negb (IsRegular info) then VisitReturn
  else if ShouldIgnore Match path (Config.Ignore (config w)) then VisitReturn
  else if bool_decide (path ∈ enqueuedFiles w) then VisitReturn
  else if bool_decide (path ∈ processingFiles w) then VisitReturn
  else VisitProbe {| config := config w;
                     processingFiles := {[path]} ∪ processingFiles w;
                     enqueuedFiles := enqueuedFiles w |}.

(** What [filepath.Match] answers on patterns without metacharacters:
    equality of pattern and name, and no error. *)
Definition literal_match (pattern name : string) : bool * bool :=
  (String.eqb pattern name, false).

(** The state of the loop of [isStable] at the head of turn [i], when
    it has neither answered nor run out of time before. *)
Definition loop_inv (w : World) (maxWait requiredChecks : Z) (i : nat)
    (lastSize lastModTime stableCount : Z) : Prop :=
  running w maxWait (matches_needed requiredChecks) i /\
  ((i = O /\ stableCount = 0) \/
   (exists c : nat,
      stableCount = Z.of_nat c /\ (1 <= c <= i)%nat /\
      sample w (i - 1) = Some (lastSize, lastModTime) /\
      (forall j, (i - c < j < i)%nat -> matches w j) /\
      ~ matches w (i - c) /\
      (stableCount < requiredChecks \/ stableCount = 1))).

(** A file that no longer changes, probed every 100 ms, and a policy of
    three checks with a budget of 250 ms. *)
Definition steady_world : World :=
  fun i => {| since := Z.of_nat i * (100 * Config.Millisecond);
              stat := Some {| Size := 5; ModTime := 1000;
                              IsRegular := true |} |}.

Definition three_checks : Config.StabilityConfig :=
  {| Config.ConfirmationIntervalMs := 100;
     Config.RequiredStableChecks := 3;
     Config.MaxWaitMs := 250 |}.

(** ** [ShouldIgnoreLegacy] *)

Definition ShouldIgnoreLegacy (Match : string -> string -> bool * bool)
    (path : string) : bool :=
  ShouldIgnore Match path [].

(** ** [processFile] *)

Record FileEvent := {
  Path : string;
  IsRename : bool;
  Timestamp : Z;
  ProcessedDueToTimeout : bool
}.

(** The zero value [FileEvent{}]. *)
Definition noEvent : FileEvent :=
  {| Path := ""; IsRename := false; Timestamp := 0;
     ProcessedDueToTimeout := false |}.

(** What the system shows to one call of [processFile]: the answer of
    [os.Stat], the world that the prober samples, and [time.Now()]. *)
Record FileOs := {
  fileStat : option FileInfo;
  probe : World;
  clock : Z
}.

(** [processFile]: the event and the error; [None] when the prober does
    not answer within the fuel. *)
Definition processFile (Match : string -> string -> bool * bool)
    (fuel : nat) (path : string) (isRename : bool)
    (cfg : Config.DirectoryConfig) (os : FileOs)
  : option (FileEvent * option string) :=
  if ShouldIgnore Match path (Config.Ignore cfg) then Some (noEvent, None)
  else
    match fileStat os with
    | None => Some (noEvent, None)
    | Some info =>
        if negb (IsRegular info) then Some (noEvent, None)
        else
          let needsStabilityCheck := if isRename then false else true in
          if needsStabilityCheck then
            match isStable (probe os) (Config.Stability cfg) fuel with
            | None => None
            | Some (stable, timedOut) =>
                if negb stable then
                  Some (noEvent,
                        Some ("file stability check failed: " +:+ path))
                else
                  Some ({| Path := path; IsRename := isRename;
                           Timestamp := clock os;
                           ProcessedDueToTimeout := timedOut |}, None)
            end
          else
            Some ({| Path := path; IsRename := isRename;
                     Timestamp := clock os;
                     ProcessedDueToTimeout := false |}, None)
    end.

(** ** The Linux watcher: scan callback, events, probe task *)

Definition store_enqueued (w : LinuxWatcher) (path : string) : LinuxWatcher :=
  {| config := config w;
     processingFiles := processingFiles w;
     enqueuedFiles := {[path]} ∪ enqueuedFiles w |}.

Definition delete_enqueued (w : LinuxWatcher) (path : string) : LinuxWatcher :=
  {| config := config w;
     processingFiles := processingFiles w;
     enqueuedFiles := enqueuedFiles w ∖ {[path]} |}.

Definition store_processing (w : LinuxWatcher) (path : string)
  : LinuxWatcher :=
  {| config := config w;
     processingFiles := {[path]} ∪ processingFiles w;
     enqueuedFiles := enqueuedFiles w |}.

Definition delete_processing (w : LinuxWatcher) (path : string)
  : LinuxWatcher :=
  {| config := config w;
     processingFiles := processingFiles w ∖ {[path]};
     enqueuedFiles := enqueuedFiles w |}.

Definition ClearEnqueued (w : LinuxWatcher) (path : string) : LinuxWatcher :=
  delete_enqueued w path.

(** The end of the three places that hand an event over: the path is
    marked enqueued, the handler runs, and a failing handler takes the
    mark away again. *)
Definition deliver (w : LinuxWatcher) (path : string) (handlerFails : bool)
  : LinuxWatcher :=
  let w := store_enqueued w path in
  if handlerFails then delete_enqueued w path else w.

(** What the system shows during one visit of the scan: the world of
    the scan's own call of [isStable], what [processFile] then sees, and
    whether the handler returns an error. *)
Record VisitOs := {
  scanProbe : World;
  fileOs : FileOs;
  handlerFails : bool
}.

(** The callback of [performReconciliationScan] for one entry of the
    walk: the new state and the events handed to the handler.  The
    callback returns nil in every case. *)
Definition reconcileVisit (Match : string -> string -> bool * bool)
    (fuel : nat) (w : LinuxWatcher) (path : string) (info : FileInfo)
    (walkErr : bool) (os : VisitOs) : option (LinuxWatcher * list FileEvent) :=
  match scan_visit Match w path info walkErr with
  | VisitReturn => Some (w, [])
  | VisitProbe w =>
      match isStable (scanProbe os) (Config.Stability (config w)) fuel with
      | None => None
      | Some (stable, _) =>
          if stable then
            match processFile Match fuel path false (config w) (fileOs os) with
            | None => None
            | Some (_, Some _) => Some (delete_processing w path, [])
            | Some (event, None) =>
                if String.eqb (Path event) "" then
                  Some (delete_processing w path, [])
                else
                  let w := deliver w path (handlerFails os) in
                  Some (delete_processing w path, [event])
            end
          else Some (delete_processing w path, [])
      end
  end.

(** One entry of the walk, with what the system shows at that moment. *)
Record WalkEntry := {
  entryPath : string;
  entryInfo : FileInfo;
  entryErr : bool;
  entryOs : VisitOs
}.

(** [performReconciliationScan]: the callback runs on the entries of the
    walk, in order. *)
Fixpoint performReconciliationScan (Match : string -> string -> bool * bool)
    (fuel : nat) (w : LinuxWatcher) (entries : list WalkEntry)
  : option (LinuxWatcher * list FileEvent) :=
  match entries with
  | [] => Some (w, [])
  | e :: rest =>
      match reconcileVisit Match fuel w (entryPath e) (entryInfo e)
              (entryErr e) (entryOs e) with
      | None => None
      | Some (w, evs) =>
          match performReconciliationScan Match fuel w rest with
          | None => None
          | Some (w, evs') => Some (w, evs ++ evs')
          end
      end
  end.

(** The operations of [fsnotify.Op], a bit mask. *)
Definition OpCreate : Z := 1.
Definition OpWrite : Z := 2.
Definition OpRemove : Z := 4.
Definition OpRename : Z := 8.
Definition OpChmod : Z := 16.

Record NotifyEvent := {
  Name : string;
  Op : Z
}.

(** [event.Op&bit != 0] *)
Definition has_op (event : NotifyEvent) (bit : Z) : bool :=
  negb (Z.land (Op event) bit =? 0).

(** What the system shows while one event is handled in hybrid mode. *)
Record EventOs := {
  eventStat : option FileInfo;
  eventFileOs : FileOs;
  eventHandlerFails : bool
}.

(** [handleHybridEvent]: the new state, the events handed to the
    handler, and the path for which a probe goroutine is started, if
    any. *)
Definition handleHybridEvent (Match : string -> string -> bool * bool)
    (fuel : nat) (w : LinuxWatcher) (event : NotifyEvent) (os : EventOs)
  : option (LinuxWatcher * list FileEvent * option string) :=
  let path := Name event in
  if bool_decide (path ∈ enqueuedFiles w) then Some (w, [], None)
  else
    let write (w : LinuxWatcher) (evs : list FileEvent) :=
      if has_op event OpWrite then
        if bool_decide (path ∈ processingFiles w) then Some (w, evs, None)
        else Some (store_processing w path, evs, Some path)
      else Some (w, evs, None) in
    if has_op event OpRename || has_op event OpCreate then
      match eventStat os with
      | None => Some (w, [], None)
      | Some info =>
          if negb (IsRegular info) then Some (w, [], None)
          else
            let isRename := has_op event OpRename in
            match processFile Match fuel path isRename (config w)
                    (eventFileOs os) with
            | None => None
            | Some (_, Some _) => Some (w, [], None)
            | Some (fileEvent, None) =>
                if String.eqb (Path fileEvent) "" then Some (w, [], None)
                else
                  write (deliver w path (eventHandlerFails os)) [fileEvent]
            end
      end
    else write w [].

(** The goroutine that a write event starts: [processFile] without the
    rename flag, the hand-over, and the deferred removal of the path from
    [processingFiles]. *)
Definition probeTask (Match : string -> string -> bool * bool)
    (fuel : nat) (w : LinuxWatcher) (path : string) (os : FileOs)
    (handlerFails : bool) : option (LinuxWatcher * list FileEvent) :=
  match processFile Match fuel path false (config w) os with
  | None => None
  | Some (_, Some _) => Some (delete_processing w path, [])
  | Some (event, None) =>
      if String.eqb (Path event) "" then Some (delete_processing w path, [])
      else
        let w := deliver w path handlerFails in
        Some (delete_processing w path, [event])
  end.

(** [handleEventOnly]: the events handed to the handler; the state is
    not touched. *)
Definition handleEventOnly (event : NotifyEvent) (now : Z) : list FileEvent :=
  if has_op event (Z.lor OpCreate (Z.lor OpWrite OpRename)) then
    [ {| Path := Name event; IsRename := has_op event OpRename;
         Timestamp := now; ProcessedDueToTimeout := false |} ]
  else [].

(** A watcher of [/data/in] with nothing in flight, a settled regular
    file, and the notification of a rename. *)
Definition quiet_watcher : LinuxWatcher :=
  {| config := {| Config.Name := "in"; Config.WatchPath := "/data/in";
                  Config.IngestPath := ""; Config.Ignore := [];
                  Config.Stability := three_checks;
                  Config.Shadow := {| Config.Enabled := false;
                                      Config.Path := "";
                                      Config.RetentionHours := 0 |} |};
     processingFiles := ∅;
     enqueuedFiles := ∅ |}.

Definition settled_file : FileOs :=
  {| fileStat := Some {| Size := 5; ModTime := 1000; IsRegular := true |};
     probe := steady_world;
     clock := 42 |}.

Definition a_txt_info : FileInfo :=
  {| Size := 5; ModTime := 1000; IsRegular := true |}.

Definition calm_visit : VisitOs :=
  {| scanProbe := steady_world; fileOs := settled_file;
     handlerFails := false |}.

Definition a_txt_entry : WalkEntry :=
  {| entryPath := "/data/in/a.txt"; entryInfo := a_txt_info;
     entryErr := false; entryOs := calm_visit |}.

Definition write_a_txt : NotifyEvent :=
  {| Name := "/data/in/a.txt"; Op := OpWrite |}.

Definition rename_a_txt : NotifyEvent :=
  {| Name := "/data/in/a.txt"; Op := OpRename |}.

Definition calm_event : EventOs :=
  {| eventStat := Some a_txt_info; eventFileOs := settled_file;
     eventHandlerFails := false |}.

End Watcher.

(* ===================================================================== *)
(** * internal/shadow: archive names and [Store] *)
(* ===================================================================== *)

Module Shadow.

(** A reading of [time.Now()], by the calendar fields that
    [Time.Format] prints (local wall clock). *)
Record Time := {
  year : Z; month : Z; day : Z;
  hour : Z; minute : Z; second : Z;
  nanosecond : Z
}.


Definition digit (d : Z) : ascii := ascii_of_nat (48 + Z.to_nat d).

(** The decimal digits of [v], zero-padded to [width] digits (for a
    value that fits in the width). *)
Fixpoint pad (width : nat) (v : Z) : string :=
  match width with
  | O => EmptyString
  | S width' => pad width' (v / 10) +:+ String (digit (v mod 10)) EmptyString
  end.

(** [t.Format("20060102-150405.000000")]: the fraction of the second is
    cut (not rounded) to six digits. *)
Definition Format (t : Time) : string :=
  pad 4 (year t) +:+ pad 2 (month t) +:+ pad 2 (day t) +:+ "-" +:+
  pad 2 (hour t) +:+ pad 2 (minute t) +:+ pad 2 (second t) +:+ "." +:+
  pad 6 (nanosecond t / 1000).

Record Manager := {
  config : Config.ShadowConfig
}.

(** [fmt.Sprintf("%s-%s", timestamp, base)] *)
Definition shadowName (sourcePath : string) (now : Time) : string :=
  let base := Filepath.Base sourcePath in
  let timestamp := Format now in
  timestamp +:+ "-" +:+ base.

Definition getShadowPath (m : Manager) (sourcePath : string) (now : Time)
  : string :=
  Filepath.Join [Config.Path (config m); shadowName sourcePath now].

(** The files of the machine: path to content. *)
Abbreviation FS := (gmap string string).

(** What the operating system answers during one [Store]. *)
Record StoreOs := {
  mkdirAllFails : bool;
  createFails : bool;
  copyFails : bool;
  syncFails : bool
}.

(** [copyFile]: [os.Create] truncates or creates the destination; a
    failed copy or sync leaves what was written. *)
Definition copyFile (os : StoreOs) (fs : FS) (src dst : string)
  : FS * option string :=
  match fs !! src with
  | None => (fs, Some "open failed")
  | Some content =>
      if createFails os then (fs, Some "create failed")
      else if copyFails os then (<[dst := ""]> fs, Some "copy failed")
      else if syncFails os then (<[dst := content]> fs, Some "sync failed")
      else (<[dst := content]> fs, None)
  end.

(** [Store], run under the manager's lock: [now] is the reading of the
    clock taken inside the critical section. *)
Definition Store (m : Manager) (os : StoreOs) (now : Time) (fs : FS)
    (sourcePath : string) : FS * option string :=
  if negb (Config.Enabled (config m)) then (fs, None)
  else
    let shadowPath := getShadowPath m sourcePath now in
    if mkdirAllFails os then
      (fs, Some "failed to create shadow subdirectory")
    else
      match copyFile os fs sourcePath shadowPath with
      | (fs', Some _) => (fs', Some "failed to copy to shadow")
      | (fs', None) => (fs', None)
      end.

(** One call of [Store] as the lock admits it. *)
Record Call := {
  source : string;
  now : Time;
  os : StoreOs
}.

(** The calls of concurrent callers run one after the other, in the
    order in which they take the lock. *)
Definition run_stores (m : Manager) (calls : list Call) (fs : FS) : FS :=
  fold_left (fun fs c => fst (Store m (os c) (now c) fs (source c))) calls fs.





(** Two readings 300 ns apart, and no failure of the system. *)
Definition noon : Time :=
  {| year := 2025; month := 1; day := 1; hour := 12; minute := 0;
     second := 0; nanosecond := 100 |}.

Definition noon_later : Time :=
  {| year := 2025; month := 1; day := 1; hour := 12; minute := 0;
     second := 0; nanosecond := 400 |}.

Definition no_fault : StoreOs :=
  {| mkdirAllFails := false; createFails := false; copyFails := false;
     syncFails := false |}.

Definition archiver : Manager :=
  {| config := {| Config.Enabled := true; Config.Path := "/var/shadow";
                  Config.RetentionHours := 24 |} |}.


(** Two calls for the same source within one microsecond. *)
Definition two_quick_calls : list Call :=
  [ {| source := "/data/in/a.txt"; now := noon; os := no_fault |};
    {| source := "/data/in/a.txt"; now := noon_later; os := no_fault |} ].

(** ** [Cleanup] *)






End Shadow.

(* ===================================================================== *)
(** * internal/uploader: retry loop, dispatcher queue, worker *)
(* ===================================================================== *)

Module Uploader.

(** ** [executeWithRetry] *)

(** What [u.client.Do(req)] returns: an error (with what
    [req.Context().Err() != nil] reads right after), or a response. *)
Inductive DoResult :=
| DoError (ctxErr : bool)
| DoResponse (StatusCode : Z) (body : string).

(** The world of one upload: the answer to each call of [Do], by attempt
    number, and for each wait before a retry whether the context's
    [Done] channel fires before the timer does. *)
Record Network := {
  do : nat -> DoResult;
  ctxDone : nat -> bool
}.

(** What the loop does to the world, in order. *)
Inductive Event :=
| EvDo (attempt : nat)
| EvSleep (d : Z).

Inductive LastErr :=
| NoErr
| RequestFailed
| ServerError (StatusCode : Z) (body : string).

Inductive UploadError :=
| ErrOpen
| ErrCancelled
| ErrClient (StatusCode : Z) (body : string)
| ErrExhausted (attempts : nat) (lastErr : LastErr).

(** The loop [for attempt := 0; attempt <= maxRetries; attempt++];
    [left] is the number of turns still to run.  The result is the
    returned error ([None] for nil) and the events of the run. *)
Fixpoint retry_loop (net : Network) (maxRetries left attempt : nat)
    (backoff : Z) (lastErr : LastErr) : option UploadError * list Event :=
  match left with
  | O => (Some (ErrExhausted (maxRetries + 1) lastErr), [])
  | S left' =>
      let attempt_now (backoff : Z) :=
        match do net attempt with
        | DoError ctxErr =>
            if ctxErr then (Some ErrCancelled, [EvDo attempt])
            else
              let '(r, evs) := retry_loop net maxRetries left' (S attempt)
                                 backoff RequestFailed in
              (r, EvDo attempt :: evs)
        | DoResponse StatusCode body =>
            if (200 <=? StatusCode) && (StatusCode <? 300) then
              (None, [EvDo attempt])
            else if (400 <=? StatusCode) && (StatusCode <? 500) then
              (Some (ErrClient StatusCode body), [EvDo attempt])
            else
              let '(r, evs) := retry_loop net maxRetries left' (S attempt)
                                 backoff (ServerError StatusCode body) in
              (r, EvDo attempt :: evs)
        end in
      if (0 <? attempt)%nat then
        if ctxDone net attempt then (Some ErrCancelled, [])
        else
          let '(r, evs) := attempt_now (backoff * 2) in
          (r, EvSleep backoff :: evs)
      else attempt_now backoff
  end.

Definition maxRetries : nat := 3.

Definition executeWithRetry (net : Network)
  : option UploadError * list Event :=
  retry_loop net maxRetries (S maxRetries) 0 Config.Second NoErr.

(** The run in which every attempt fails and no cancellation comes. *)
Definition full_schedule : list Event :=
  [EvDo 0; EvSleep (1 * Config.Second); EvDo 1;
   EvSleep (2 * Config.Second); EvDo 2;
   EvSleep (4 * Config.Second); EvDo 3].

Definition is_2xx (st : Z) : Prop := 200 <= st < 300.
Definition is_4xx (st : Z) : Prop := 400 <= st < 500.
Definition is_5xx (st : Z) : Prop := 500 <= st < 600.

(** Attempt [k] fails in a way that the loop retries. *)
Definition retryable (r : DoResult) : Prop :=
  r = DoError false \/ exists st body, r = DoResponse st body /\ is_5xx st.

(** What the loop does after the answer to one attempt: [Some r] when
    it returns [r] at once, [None] when it goes on to the next turn. *)
Definition verdict (r : DoResult) : option (option UploadError) :=
  match r with
  | DoError ctxErr => if ctxErr then Some (Some ErrCancelled) else None
  | DoResponse StatusCode body =>
      if (200 <=? StatusCode) && (StatusCode <? 300) then Some None
      else if (400 <=? StatusCode) && (StatusCode <? 500) then
        Some (Some (ErrClient StatusCode body))
      else None
  end.

(** The value of [lastErr] after a failed attempt. *)
Definition err_of (r : DoResult) : LastErr :=
  match r with
  | DoError _ => RequestFailed
  | DoResponse StatusCode body => ServerError StatusCode body
  end.

(** The events of [left] turns from turn [attempt] on, when every
    attempt fails and no cancellation comes. *)
Fixpoint schedule_from (left attempt : nat) (backoff : Z) : list Event :=
  match left with
  | O => []
  | S left' =>
      if (0 <? attempt)%nat then
        EvSleep backoff :: EvDo attempt ::
          schedule_from left' (S attempt) (backoff * 2)
      else EvDo attempt :: schedule_from left' (S attempt) backoff
  end.

(** ** The dispatcher and its queue *)

Record fileEvent := {
  path : string;
  processedDueToTimeout : bool
}.

(** A buffered Go channel. *)
Record Chan := {
  buf : list fileEvent;
  cap : nat;
  closed : bool
}.

(** [d.ctx]: nil before [Start], then live until cancelled. *)
Inductive Ctx :=
| CtxNil
| CtxLive
| CtxDone.

(** [onSuccessfulUpload] is kept as the flag "the callback is set". *)
Record Dispatcher := {
  workQueue : Chan;
  ctx : Ctx;
  stopped : bool;
  shadowManager : Shadow.Manager;
  onSuccessfulUpload : bool
}.

Definition NewDispatcher (shadowMgr : Shadow.Manager) : Dispatcher :=
  {| workQueue := {| buf := []; cap := 100; closed := false |};
     ctx := CtxNil;
     stopped := false;
     shadowManager := shadowMgr;
     onSuccessfulUpload := false |}.

Definition with_queue (d : Dispatcher) (q : Chan) : Dispatcher :=
  {| workQueue := q; ctx := ctx d; stopped := stopped d;
     shadowManager := shadowManager d;
     onSuccessfulUpload := onSuccessfulUpload d |}.

Definition with_ctx (d : Dispatcher) (c : Ctx) : Dispatcher :=
  {| workQueue := workQueue d; ctx := c; stopped := stopped d;
     shadowManager := shadowManager d;
     onSuccessfulUpload := onSuccessfulUpload d |}.

Definition SetOnSuccessfulUpload (d : Dispatcher) : Dispatcher :=
  {| workQueue := workQueue d; ctx := ctx d; stopped := stopped d;
     shadowManager := shadowManager d;
     onSuccessfulUpload := true |}.

Definition Start (d : Dispatcher) : Dispatcher := with_ctx d CtxLive.

(** The enclosing context is cancelled: [d.ctx] is done as well. *)
Definition cancel (d : Dispatcher) : Dispatcher :=
  match ctx d with
  | CtxNil => d
  | _ => with_ctx d CtxDone
  end.

Definition Stop (d : Dispatcher) : Dispatcher :=
  if stopped d then d
  else
    let d := cancel d in
    {| workQueue := {| buf := buf (workQueue d); cap := cap (workQueue d);
                       closed := true |};
       ctx := ctx d; stopped := true;
       shadowManager := shadowManager d;
       onSuccessfulUpload := onSuccessfulUpload d |}.

(** A worker takes the job at the head of the queue. *)
Definition receive (d : Dispatcher) : option (fileEvent * Dispatcher) :=
  match buf (workQueue d) with
  | [] => None
  | e :: rest =>
      Some (e, with_queue d {| buf := rest; cap := cap (workQueue d);
                               closed := closed (workQueue d) |})
  end.

(** Go's [select]: a communication that can proceed is chosen (by the
    scheduler, [pick]) among those that can; with none, the default
    case runs if there is one, and the goroutine blocks otherwise. *)
Inductive Arm := ArmSend | ArmDone | ArmDefault.

Definition select (pick : bool) (sendReady doneReady hasDefault : bool)
  : option Arm :=
  match sendReady, doneReady with
  | true, true => Some (if pick then ArmSend else ArmDone)
  | true, false => Some ArmSend
  | false, true => Some ArmDone
  | false, false => if hasDefault then Some ArmDefault else None
  end.

(** A send can proceed when the buffer has room, and also on a closed
    channel, where it panics. *)
Definition send_ready (q : Chan) : bool :=
  closed q || (length (buf q) <? cap q)%nat.

Inductive Outcome :=
| Returned (d' : Dispatcher) (log : string)
| Panicked
| Blocked.

Definition Enqueue (pick : bool) (d : Dispatcher) (filePath : string)
    (processedDueToTimeout : bool) : Outcome :=
  let event := {| path := filePath;
                  processedDueToTimeout := processedDueToTimeout |} in
  match ctx d with
  | CtxNil => Panicked
  | c =>
      let doneReady := match c with CtxDone => true | _ => false end in
      match select pick (send_ready (workQueue d)) doneReady true with
      | Some ArmSend =>
          if closed (workQueue d) then Panicked
          else Returned
                 (with_queue d {| buf := buf (workQueue d) ++ [event];
                                  cap := cap (workQueue d);
                                  closed := false |})
                 ("Enqueued for upload: " +:+ filePath)
      | Some ArmDone =>
          Returned d ("Dispatcher stopped, cannot enqueue: " +:+ filePath)
      | Some ArmDefault =>
          Returned d ("Upload queue full, dropping: " +:+ filePath)
      | None => Blocked
      end
  end.

(** The states a dispatcher goes through. *)
Inductive reachable : Dispatcher -> Prop :=
| reach_new m : reachable (NewDispatcher m)
| reach_callback d : reachable d -> reachable (SetOnSuccessfulUpload d)
| reach_start d : reachable d -> reachable (Start d)
| reach_cancel d : reachable d -> reachable (cancel d)
| reach_stop d : reachable d -> reachable (Stop d)
| reach_enqueue d pick p t d' log :
    reachable d -> Enqueue pick d p t = Returned d' log -> reachable d'
| reach_receive d e d' :
    reachable d -> receive d = Some (e, d') -> reachable d'.

(** A started dispatcher: [Start] has run, [Stop] has not, and the
    context is live (a dispatcher whose context is done is what the log
    line of [Enqueue] calls stopped). *)
Definition started (d : Dispatcher) : Prop :=
  ctx d = CtxLive /\ stopped d = false.

(** What holds of the queue in every state of the dispatcher. *)
Definition queue_inv (d : Dispatcher) : Prop :=
  cap (workQueue d) = 100%nat /\
  (length (buf (workQueue d)) <= 100)%nat /\
  (closed (workQueue d) = true -> stopped d = true).

(** ** The worker *)

(** What the system answers while a worker handles one job: the three
    calls of [os.Stat] (other processes may write to the file in
    between), the upload, the files and the clock that [Store] finds,
    and [os.Remove]. *)
Record JobOs := {
  statBeforeUpload : option Watcher.FileInfo;
  openFails : bool;
  net : Network;
  statBeforeShadow : option Watcher.FileInfo;
  storeOs : Shadow.StoreOs;
  storeNow : Shadow.Time;
  storeFs : Shadow.FS;
  statBeforeDelete : option Watcher.FileInfo;
  removeFails : bool
}.

(** [Upload] and [UploadStream]: the file is opened, then the request
    goes through [executeWithRetry]. *)
Definition Upload (os : JobOs) : option UploadError :=
  if openFails os then Some ErrOpen
  else fst (executeWithRetry (net os)).

(** What a worker does to the world for one job. *)
Inductive Action :=
| ActUpload (filePath : string) (streaming : bool)
| ActCallback (filePath : string)
| ActStore (filePath : string)
| ActRemove (filePath : string).

(** The body of the loop of [worker] for one received job: the actions
    taken, in order. *)
Definition process (d : Dispatcher) (os : JobOs) (event : fileEvent)
  : list Action :=
  let filePath := path event in
  match statBeforeUpload os with
  | None => []
  | Some fileInfo =>
      let streaming := Watcher.Size fileInfo >? 100 * 1024 * 1024 in
      match Upload os with
      | Some _ => [ActUpload filePath streaming]
      | None =>
          let called :=
            if onSuccessfulUpload d then [ActCallback filePath] else [] in
          let done := ActUpload filePath streaming :: called in
          if processedDueToTimeout event then done
          else
            match statBeforeShadow os with
            | None => done
            | Some info =>
                let preShadowSize := Watcher.Size info in
                let preShadowModTime := Watcher.ModTime info in
                match snd (Shadow.Store (shadowManager d) (storeOs os)
                             (storeNow os) (storeFs os) filePath) with
                | Some _ => done ++ [ActStore filePath]
                | None =>
                    let done := done ++ [ActStore filePath] in
                    match statBeforeDelete os with
                    | None => done
                    | Some info =>
                        if negb (Watcher.Size info =? preShadowSize)
                           || negb (Watcher.ModTime info =? preShadowModTime)
                        then done
                        else done ++ [ActRemove filePath]
                    end
                end
            end
      end
  end.

(** The four conditions of the deletion. *)
Definition upload_succeeded (os : JobOs) : Prop :=
  statBeforeUpload os <> None /\ Upload os = None.

Definition shadow_succeeded (d : Dispatcher) (os : JobOs)
    (event : fileEvent) : Prop :=
  snd (Shadow.Store (shadowManager d) (storeOs os) (storeNow os)
         (storeFs os) (path event)) = None.

Definition unchanged_since_snapshot (os : JobOs) : Prop :=
  exists pre post,
    statBeforeShadow os = Some pre /\ statBeforeDelete os = Some post /\
    Watcher.Size post = Watcher.Size pre /\
    Watcher.ModTime post = Watcher.ModTime pre.

(** ** Sequences of queue operations *)

(** The jobs are enqueued one after the other. *)
Fixpoint EnqueueAll (pick : bool) (d : Dispatcher) (jobs : list fileEvent)
  : option Dispatcher :=
  match jobs with
  | [] => Some d
  | job :: rest =>
      match Enqueue pick d (path job) (processedDueToTimeout job) with
      | Returned d _ => EnqueueAll pick d rest
      | _ => None
      end
  end.

(** Up to [n] jobs are received, one after the other. *)
Fixpoint receiveAll (n : nat) (d : Dispatcher) : list fileEvent * Dispatcher :=
  match n with
  | O => ([], d)
  | S n' =>
      match receive d with
      | None => ([], d)
      | Some (e, d) =>
          let '(es, d) := receiveAll n' d in (e :: es, d)
      end
  end.

(** An attempt after which the loop of [executeWithRetry] goes on: a
    transport failure under a live context, or a response that is neither
    2xx nor 4xx. *)
Definition goes_on (r : DoResult) : Prop :=
  r = DoError false \/
  exists st body, r = DoResponse st body /\ ~ is_2xx st /\ ~ is_4xx st.

(** The order of the steps of the worker when all of them run. *)
Definition full_life_cycle (d : Dispatcher) (event : fileEvent)
    (streaming : bool) : list Action :=
  ActUpload (path event) streaming ::
  (if onSuccessfulUpload d then [ActCallback (path event)] else []) ++
  [ActStore (path event); ActRemove (path event)].

End Uploader.

(* ===================================================================== *)
(** * internal/ingress: sanitizers and the containment check *)
(* ===================================================================== *)

Module Ingress.
Import GoStrings.

(** A Go result pair [(value, error)]: either the value with a nil
    error, or the error message. *)
Inductive Result (A : Type) : Type :=
| Ok (a : A)
| Err (msg : string).
Arguments Ok {A} a.
Arguments Err {A} msg.

Definition NUL : string := String Ascii.zero EmptyString.

Definition sanitizeFilename (filename : string) : Result string :=
  if Contains filename NUL then Err "filename contains null byte"
  else if String.eqb filename "" then Err "filename is empty"
  else if Contains filename ".." then
    Err "filename contains path traversal attempt"
  else if Contains filename "/" || Contains filename "\" then
    Err "filename contains path separator"
  else if String.eqb filename "." || String.eqb filename ".." then
    Err "invalid filename"
  else
    let cleaned := Filepath.Clean filename in
    if negb (String.eqb cleaned filename) then
      Err "filename normalization mismatch"
    else Ok filename.

(** The loop over the components of the subdirectory: the first
    component that is empty, [.] or [..] is reported. *)
Fixpoint bad_component (parts : list string) : option string :=
  match parts with
  | [] => None
  | part :: rest =>
      if String.eqb part "" || String.eqb part "." || String.eqb part ".."
      then Some part
      else bad_component rest
  end.

Definition sanitizeSubdirectoryPath (subdir : string) : Result string :=
  if Contains subdir NUL then Err "path contains null byte"
  else if String.eqb subdir "" then Err "path is empty"
  else
    let normalized := Filepath.ToSlash subdir in
    if Contains normalized ".." then Err "path contains traversal attempt"
    else if HasPrefix normalized "/" || Filepath.IsAbs subdir then
      Err "absolute paths not allowed"
    else
      let parts := Split normalized "/"%char in
      match bad_component parts with
      | Some part => Err ("invalid path component: " +:+ part)
      | None =>
          let cleaned := Filepath.Clean normalized in
          if Contains cleaned ".." || HasPrefix cleaned "/" then
            Err "path normalization resulted in unsafe path"
          else Ok (Filepath.FromSlash cleaned)
      end.

(** [getwd] is what [os.Getwd] returns when [filepath.Abs] asks for it. *)
Definition validateSubdirectoryPath (getwd : option string)
    (baseDir relativePath : string) : Result string :=
  match Filepath.Abs getwd baseDir with
  | None => Err "failed to resolve base directory"
  | Some absBase =>
      let finalPath := Filepath.Join [absBase; relativePath] in
      match Filepath.Abs getwd finalPath with
      | None => Err "failed to resolve final path"
      | Some absFinal =>
          if negb (HasPrefix absFinal (absBase +:+ Filepath.SeparatorString))
             && negb (String.eqb absFinal absBase)
          then Err "path escapes base directory"
          else Ok absFinal
      end
  end.

(** The relative target that [handleUpload] builds from the URL's
    subdirectory and the submitted filename, both sanitized. *)
Definition targetRelPath (safeSubdir : option string) (safeFilename : string)
  : string :=
  match safeSubdir with
  | Some sub => Filepath.Join [sub; safeFilename]
  | None => safeFilename
  end.

(** ** The multipart handler *)

Record Server := {
  TempDir : string;
  directories : gmap string Config.DirectoryConfig;
  getwd : option string
}.

(** The outcome of [r.ParseMultipartForm] and [r.FormFile("file")]: the
    form does not parse, it has no part [file], or it has one, with the
    submitted filename and the bytes of the part. *)
Inductive Form :=
| FormBad
| FormNoFile
| FormFile (Filename : string) (content : string).

Record Request := {
  Method : string;
  URLPath : string;
  form : Form
}.

Record Response := {
  status : Z;
  body : string
}.

(** What the operating system answers during one request.
    [copyFailsAfter = Some n]: [io.Copy] fails after [n] bytes have
    reached the scratch file. *)
Record OsFaults := {
  mkdirAllFails : bool;
  createFails : bool;
  copyFailsAfter : option nat;
  syncFails : bool;
  renameFails : bool;
  removeFails : bool
}.

Definition StatusOK : Z := 200.
Definition StatusBadRequest : Z := 400.
Definition StatusNotFound : Z := 404.
Definition StatusMethodNotAllowed : Z := 405.
Definition StatusInternalServerError : Z := 500.

(** [streamToFile]: [os.Create] makes or truncates the file, [io.Copy]
    fills it, [f.Sync] flushes it; the deferred [f.Close] does not
    remove it. *)
Definition streamToFile (os : OsFaults) (fs : Shadow.FS) (src : string)
    (destPath : string) : Shadow.FS * option string :=
  if createFails os then (fs, Some "failed to create file")
  else
    let fs := <[destPath := ""]> fs in
    match copyFailsAfter os with
    | Some n =>
        (<[destPath := String.substring 0 n src]> fs,
         Some "failed to copy data")
    | None =>
        let fs := <[destPath := src]> fs in
        if syncFails os then (fs, Some "failed to sync file")
        else (fs, None)
    end.

(** The scratch path of an upload. *)
Definition tempPathOf (s : Server) (safeFilename : string) : string :=
  Filepath.Join [TempDir s; Filepath.Base safeFilename +:+ ".partial"].

Definition respond (fs : Shadow.FS) (code : Z) (msg : string)
  : Shadow.FS * Response :=
  (fs, {| status := code; body := msg |}).

(** [handleUpload]: the files after the request and the response.  The
    router hands over only paths that start with [/upload/]. *)
Definition handleUpload (s : Server) (os : OsFaults) (fs : Shadow.FS)
    (r : Request) : Shadow.FS * Response :=
  if negb (String.eqb (Method r) "POST") then
    respond fs StatusMethodNotAllowed "Method not allowed"
  else
    let uploadPath := slice_from (URLPath r) (String.length "/upload/") in
    if String.eqb uploadPath "" then
      respond fs StatusBadRequest "Directory name required"
    else
      let pathParts := SplitN2 uploadPath "/"%char in
      let dirName := hd "" pathParts in
      let subdirPath := match pathParts with
                        | _ :: rest :: _ => rest
                        | _ => ""
                        end in
      match directories s !! dirName with
      | None => respond fs StatusNotFound "Unknown directory"
      | Some dirConfig =>
      match form r with
      | FormBad => respond fs StatusBadRequest "Failed to parse form"
      | FormNoFile => respond fs StatusBadRequest "Failed to get file"
      | FormFile filename content =>
      if String.eqb filename "" then
        respond fs StatusBadRequest "Filename is required"
      else
      match sanitizeFilename filename with
      | Err msg =>
          respond fs StatusBadRequest ("Invalid filename: " +:+ msg)
      | Ok safeFilename =>
      let target :=
        if negb (String.eqb subdirPath "") then
          match sanitizeSubdirectoryPath subdirPath with
          | Err msg => Err msg
          | Ok safeSubdir => Ok (targetRelPath (Some safeSubdir) safeFilename)
          end
        else Ok (targetRelPath None safeFilename) in
      match target with
      | Err msg =>
          respond fs StatusBadRequest ("Invalid subdirectory path: " +:+ msg)
      | Ok targetRelPath =>
      match validateSubdirectoryPath (getwd s)
              (Config.GetIngestPath dirConfig) targetRelPath with
      | Err msg => respond fs StatusBadRequest ("Invalid path: " +:+ msg)
      | Ok finalPath =>
      if mkdirAllFails os then
        respond fs StatusInternalServerError "Failed to create directory"
      else
        let tempPath := tempPathOf s safeFilename in
        match streamToFile os fs content tempPath with
        | (fs, Some msg) =>
            respond fs StatusInternalServerError
              ("Failed to write file: " +:+ msg)
        | (fs, None) =>
            if renameFails os then
              let fs := if removeFails os then fs else delete tempPath fs in
              respond fs StatusInternalServerError "Failed to finalize file"
            else
              respond (<[finalPath := content]> (delete tempPath fs))
                StatusOK
                ("Upload successful: " +:+ safeFilename +:+
                 String "010"%char EmptyString)
        end
      end end end end end.

(** A server with one binding, an upload of five bytes, and a disk that
    takes two of them. *)
Definition invoices : Config.DirectoryConfig :=
  {| Config.Name := "invoices";
     Config.WatchPath := "/data/invoices";
     Config.IngestPath := "";
     Config.Ignore := [];
     Config.Stability := {| Config.ConfirmationIntervalMs := 100;
                            Config.RequiredStableChecks := 3;
                            Config.MaxWaitMs := 1500 |};
     Config.Shadow := {| Config.Enabled := false; Config.Path := "";
                         Config.RetentionHours := 0 |} |}.

Definition server : Server :=
  {| TempDir := "/var/tmp/xferd";
     directories := {[ "invoices" := invoices ]};
     getwd := Some "/" |}.

Definition upload_a_txt : Request :=
  {| Method := "POST";
     URLPath := "/upload/invoices";
     form := FormFile "a.txt" "hello" |}.


Definition disk_full : OsFaults :=
  {| mkdirAllFails := false; createFails := false;
     copyFailsAfter := Some 2%nat;
     syncFails := false; renameFails := false; removeFails := false |}.

Definition sync_error : OsFaults :=
  {| mkdirAllFails := false; createFails := false; copyFailsAfter := None;
     syncFails := true; renameFails := false; removeFails := false |}.

Definition rename_error : OsFaults :=
  {| mkdirAllFails := false; createFails := false; copyFailsAfter := None;
     syncFails := false; renameFails := true; removeFails := false |}.

(** ** [NewServer], and the streaming handler *)

(** The loop [dirMap[dir.Name] = dir] of [NewServer]. *)
Definition dirMap (directories : list Config.DirectoryConfig)
  : gmap string Config.DirectoryConfig :=
  fold_left (fun m dir => <[Config.Name dir := dir]> m) directories ∅.

(** [NewServer]; [mkdirAllFails] is the answer of [os.MkdirAll] for the
    temp directory. *)
Definition NewServer (mkdirAllFails : bool) (tempDir : string)
    (getwd : option string) (directories : list Config.DirectoryConfig)
  : Result Server :=
  if mkdirAllFails then Err "failed to create temp directory"
  else Ok {| TempDir := tempDir;
             directories := dirMap directories;
             getwd := getwd |}.

(** A request to the streaming handler: the filename of the query, the
    header [X-Filename], and the bytes of the body. *)
Record StreamRequest := {
  sMethod : string;
  sURLPath : string;
  queryFilename : string;
  headerFilename : string;
  sBody : string
}.




Definition stream_a_txt : StreamRequest :=
  {| sMethod := "POST"; sURLPath := "/upload/invoices/2025";
     queryFilename := ""; headerFilename := "a.txt"; sBody := "hello" |}.

Definition upload_bad_name : Request :=
  {| Method := "POST"; URLPath := "/upload/invoices";
     form := FormFile "../a.txt" "hello" |}.

End Ingress.

(* ===================================================================== *)
(** * internal/service: the wiring of watcher and dispatcher *)
(* ===================================================================== *)

Module Service.

(** The handler that [createFileHandler] builds: it enqueues the file on
    the dispatcher of the directory and returns nil.  The result is the
    dispatcher after the call and the returned error; [None] when
    [Enqueue] does not return. *)
Definition fileHandler (pick : bool) (d : Uploader.Dispatcher)
    (event : Watcher.FileEvent)
  : option (Uploader.Dispatcher * option string) :=
  match Uploader.Enqueue pick d (Watcher.Path event)
          (Watcher.ProcessedDueToTimeout event) with
  | Uploader.Returned d _ => Some (d, None)
  | _ => None
  end.

(** What the watcher takes from the handler: whether it returned an
    error. *)
Definition handler_failed (r : Uploader.Dispatcher * option string) : bool :=
  match r.2 with
  | Some _ => true
  | None => false
  end.

(** A started dispatcher whose queue holds 100 jobs. *)
Definition hundred_jobs : list Uploader.fileEvent :=
  replicate 100 {| Uploader.path := "/data/in/old.txt";
                   Uploader.processedDueToTimeout := false |}.

Definition busy_dispatcher : Uploader.Dispatcher :=
  {| Uploader.workQueue := {| Uploader.buf := hundred_jobs;
                              Uploader.cap := 100;
                              Uploader.closed := false |};
     Uploader.ctx := Uploader.CtxLive;
     Uploader.stopped := false;
     Uploader.shadowManager := Shadow.archiver;
     Uploader.onSuccessfulUpload := false |}.

End Service.

(* ===================================================================== *)
(** * Lemmas on strings *)
(* ===================================================================== *)

Section StringFacts.
Import GoStrings.

Lemma app_cons_s (c : ascii) (s t : string) :
  String c s +:+ t = String c (s +:+ t).
Proof. reflexivity. Qed.

Lemma app_nil_l_s (s : string) : "" +:+ s = s.
Proof. reflexivity. Qed.

Lemma app_nil_r_s (s : string) : s +:+ "" = s.
Proof.
  induction s as [|c s IH]; [done|]. by rewrite app_cons_s, IH.
Qed.

Lemma app_assoc_s (a b c : string) : (a +:+ b) +:+ c = a +:+ b +:+ c.
Proof.
  induction a as [|x a IH]; [done|]. by rewrite !app_cons_s, IH.
Qed.

Lemma length_app_s (a b : string) :
  String.length (a +:+ b) = (String.length a + String.length b)%nat.
Proof.
  induction a as [|x a IH]; [done|]. rewrite app_cons_s. simpl.
  by rewrite IH.
Qed.

Lemma dropn_app_length (a b : string) :
  dropn (String.length a) (a +:+ b) = b.
Proof.
  induction a as [|x a IH]; [by destruct b|]. rewrite app_cons_s.
  simpl. apply IH.
Qed.

End StringFacts.

(* ===================================================================== *)
(** * Ignore rules *)
(* ===================================================================== *)

Section IgnoreRules.
Import GoStrings Watcher.

Lemma legacy_suffix_dot (suffix : string) :
  suffix ∈ IgnoredSuffixes -> starts_with_dot suffix = true.
Proof.
  unfold IgnoredSuffixes. intros H.
  repeat (apply elem_of_cons in H as [-> | H]; [reflexivity|]).
  by apply elem_of_nil in H.
Qed.

Lemma suffix_test_of_ends_with (base pre suffix : string) :
  base = pre +:+ suffix -> pre <> "" -> suffix_test base suffix = true.
Proof.
  intros -> Hpre. unfold suffix_test, slice_from.
  rewrite length_app_s.
  replace (String.length pre + String.length suffix - String.length suffix)%nat
    with (String.length pre) by lia.
  rewrite dropn_app_length, String.eqb_refl, andb_true_r.
  apply Nat.ltb_lt. destruct pre; [done | simpl; lia].
Qed.

Lemma dropn_split (n : nat) (s : string) :
  (n <= String.length s)%nat -> exists pre, s = pre +:+ dropn n s.
Proof.
  revert s. induction n as [|n IH]; intros s Hn.
  - by exists "".
  - destruct s as [|c s]; simpl in Hn; [lia|].
    destruct (IH s) as [pre Hpre]; [lia|].
    exists (String c pre). rewrite app_cons_s. simpl. by rewrite <- Hpre.
Qed.

Lemma ends_with_of_suffix_test (base suffix : string) :
  suffix_test base suffix = true -> ends_with base suffix.
Proof.
  unfold suffix_test, slice_from. intros [Hlen Heq]%andb_true_iff.
  apply String.eqb_eq in Heq.
  destruct (dropn_split (String.length base - String.length suffix) base)
    as [pre Hpre]; [lia|].
  exists pre. by rewrite Heq in Hpre.
Qed.

Variable Match : string -> string -> bool * bool.

(** C6.  Whatever patterns are configured (and whatever the pattern
    matcher answers), [ShouldIgnore] returns true for a path whose
    basename starts with a dot or ends with one of the legacy suffixes
    [.partial], [.uploading], [.tmp], [.swp], [.~]. *)
Theorem ShouldIgnore_hidden_or_legacy (path : string) (ignorePatterns : list string) :
  starts_with_dot (Filepath.Base path) = true \/
  (exists suffix, suffix ∈ IgnoredSuffixes /\
                  ends_with (Filepath.Base path) suffix) ->
  ShouldIgnore Match path ignorePatterns = true.
Proof.
  intros H. unfold ShouldIgnore.
  destruct (starts_with_dot (Filepath.Base path)) eqn:Hdot; [done|].
  destruct H as [H | (suffix & Hin & pre & Hbase)]; [done|].
  destruct (existsb _ ignorePatterns); [done|].
  assert (Hpre : pre <> "").
  { intros ->. rewrite app_nil_l_s in Hbase. rewrite Hbase in Hdot.
    by rewrite (legacy_suffix_dot _ Hin) in Hdot. }
  assert (existsb (suffix_test (Filepath.Base path)) IgnoredSuffixes = true)
    as ->; [|done].
  apply existsb_exists. exists suffix. split.
  - by apply list_elem_of_In.
  - by eapply suffix_test_of_ends_with.
Qed.

(** C10.  The hidden-file rule looks at the basename only: a path whose
    basename does not start with a dot, ends with no legacy suffix and is
    hit by no configured pattern is not ignored, wherever it lies (also
    below a directory whose name starts with a dot). *)
Theorem ShouldIgnore_basename_only (path : string) (ignorePatterns : list string) :
  starts_with_dot (Filepath.Base path) = false ->
  (forall suffix, suffix ∈ IgnoredSuffixes ->
                  ~ ends_with (Filepath.Base path) suffix) ->
  (forall pattern, pattern ∈ ignorePatterns ->
      pattern_hits Match path (Filepath.Base path) pattern = false) ->
  ShouldIgnore Match path ignorePatterns = false.
Proof.
  intros Hdot Hsuf Hpat. unfold ShouldIgnore. rewrite Hdot.
  destruct (existsb _ ignorePatterns) eqn:Hex.
  { apply existsb_exists in Hex as (pattern & Hin & Hhit).
    apply list_elem_of_In in Hin. by rewrite (Hpat _ Hin) in Hhit. }
  destruct (existsb _ IgnoredSuffixes) eqn:Hex'; [|done].
  apply existsb_exists in Hex' as (suffix & Hin & Hhit).
  apply list_elem_of_In in Hin.
  exfalso. eapply Hsuf; [done|]. by apply ends_with_of_suffix_test.
Qed.

End IgnoreRules.

Section IgnoreExamples.
Import GoStrings Watcher.

Lemma ends_with_test (base suffix : string) :
  ends_with base suffix -> base = suffix \/ suffix_test base suffix = true.
Proof.
  intros [pre Hpre]. destruct pre as [|c pre].
  - left. by rewrite Hpre.
  - right. by eapply suffix_test_of_ends_with.
Qed.

Lemma ShouldIgnore_hidden_or_legacy_witness :
  (starts_with_dot (Filepath.Base "/data/in/report.partial") = true \/
   (exists suffix, suffix ∈ IgnoredSuffixes /\
                   ends_with (Filepath.Base "/data/in/report.partial") suffix)) /\
  ShouldIgnore literal_match "/data/in/report.partial" ["README"] = true.
Proof.
  assert (H : starts_with_dot (Filepath.Base "/data/in/report.partial") = true \/
              (exists suffix, suffix ∈ IgnoredSuffixes /\
                 ends_with (Filepath.Base "/data/in/report.partial") suffix)).
  { right. exists ".partial". split; [apply list_elem_of_here|].
    exists "report". reflexivity. }
  split; [exact H|].
  exact (ShouldIgnore_hidden_or_legacy literal_match
           "/data/in/report.partial" ["README"] H).
Defined.

Lemma ShouldIgnore_basename_only_witness :
  starts_with_dot (Filepath.Base "/data/.hidden/file.txt") = false /\
  (forall suffix, suffix ∈ IgnoredSuffixes ->
                  ~ ends_with (Filepath.Base "/data/.hidden/file.txt") suffix) /\
  (forall pattern, pattern ∈ ["README"] ->
      pattern_hits literal_match "/data/.hidden/file.txt"
        (Filepath.Base "/data/.hidden/file.txt") pattern = false) /\
  ShouldIgnore literal_match "/data/.hidden/file.txt" ["README"] = false.
Proof.
  assert (H1 : starts_with_dot (Filepath.Base "/data/.hidden/file.txt") = false)
    by reflexivity.
  assert (H2 : forall suffix, suffix ∈ IgnoredSuffixes ->
             ~ ends_with (Filepath.Base "/data/.hidden/file.txt") suffix).
  { intros suffix Hin Hend. apply ends_with_test in Hend.
    unfold IgnoredSuffixes in Hin.
    repeat (apply elem_of_cons in Hin as [-> | Hin];
            [destruct Hend; discriminate|]).
    by apply elem_of_nil in Hin. }
  assert (H3 : forall pattern, pattern ∈ ["README"] ->
             pattern_hits literal_match "/data/.hidden/file.txt"
               (Filepath.Base "/data/.hidden/file.txt") pattern = false).
  { intros pattern Hin. apply list_elem_of_singleton in Hin as ->.
    reflexivity. }
  split; [exact H1|]. split; [exact H2|]. split; [exact H3|].
  exact (ShouldIgnore_basename_only literal_match
           "/data/.hidden/file.txt" ["README"] H1 H2 H3).
Defined.

(** The reconciliation scan goes on to probe a regular file that is not
    ignored and not in flight, also below a hidden directory. *)
Lemma scan_visit_probes (Match : string -> string -> bool * bool)
    (w : LinuxWatcher) (path : string) (info : FileInfo) :
  IsRegular info = true ->
  ShouldIgnore Match path (Config.Ignore (config w)) = false ->
  path ∉ enqueuedFiles w -> path ∉ processingFiles w ->
  exists w', scan_visit Match w path info false = VisitProbe w' /\
             path ∈ processingFiles w'.
Proof.
  intros Hreg Hign Henq Hproc. unfold scan_visit.
  rewrite Hreg, Hign. simpl.
  rewrite !bool_decide_eq_false_2 by done.
  eexists. split; [done|]. simpl. set_solver.
Qed.

End IgnoreExamples.

(* ===================================================================== *)
(** * Filename sanitizer *)
(* ===================================================================== *)

Section Sanitizers.
Import GoStrings Ingress.

(** C9.  When [sanitizeFilename] accepts a filename it returns that very
    string: it accepts or rejects, and never rewrites. *)
Theorem sanitizeFilename_identity (filename safe : string) :
  sanitizeFilename filename = Ok safe -> safe = filename.
Proof.
  unfold sanitizeFilename. intros H.
  repeat match type of H with
         | (if ?c then _ else _) = _ => destruct c; [discriminate|]
         end.
  by inversion H.
Qed.

Lemma sanitizeFilename_identity_witness :
  sanitizeFilename "a.txt" = Ok "a.txt" /\ "a.txt" = "a.txt".
Proof.
  assert (H : sanitizeFilename "a.txt" = Ok "a.txt") by reflexivity.
  split; [exact H|]. exact (sanitizeFilename_identity "a.txt" "a.txt" H).
Defined.

End Sanitizers.

(* ===================================================================== *)
(** * Stability prober *)
(* ===================================================================== *)

Section Prober.
Import Watcher.

Variable w : World.
Variable maxWait requiredChecks : Z.

Local Abbreviation n := (matches_needed requiredChecks).

Lemma matches_needed_pos : (1 <= n)%nat.
Proof. unfold matches_needed. lia. Qed.

Lemma running_step (i : nat) :
  running w maxWait n i ->
  since (w i) <= maxWait -> stat (w i) <> None -> ~ streak w n i ->
  running w maxWait n (S i).
Proof.
  intros [Hpre Hno] Ht Hs Hk. split.
  - intros j Hj. destruct (decide (j = i)) as [-> | Hne]; [done|].
    apply Hpre. lia.
  - intros k' Hk'. destruct (decide (k' = i)) as [-> | Hne]; [done|].
    apply Hno. lia.
Qed.

Lemma isStable_loop_sound (fuel : nat) :
  forall i lastSize lastModTime stableCount r,
    loop_inv w maxWait requiredChecks i lastSize lastModTime stableCount ->
    isStable_loop w maxWait requiredChecks fuel i
      lastSize lastModTime stableCount = Some r ->
    outcome w maxWait n r.
Proof.
  induction fuel as [|fuel IH]; intros i ls lm sc r [Hrun Hst] Hr;
    [discriminate|].
  simpl in Hr.
  destruct (since (w i) >? maxWait) eqn:Ht.
  { inversion Hr; subst. right; left. split; [done|]. exists i.
    split; [done | lia]. }
  assert (Hin : since (w i) <= maxWait) by lia.
  destruct (stat (w i)) as [info|] eqn:Hstat.
  2:{ inversion Hr; subst. right; right. split; [done|]. by exists i. }
  assert (Hsample : sample w i = Some (Size info, ModTime info)).
  { unfold sample. by rewrite Hstat. }
  assert (Hpresent : stat (w i) <> None) by (by rewrite Hstat).
  destruct ((sc >? 0) && (Size info =? ls) && (ModTime info =? lm)) eqn:Hsame.
  - (* the sample matches the one before it *)
    apply andb_true_iff in Hsame as [[Hsc Hsz]%andb_true_iff Hmt].
    destruct Hst as [[-> ->] | (c & -> & Hc & Hlast & Hrunm & Hmax & Hlt)];
      [lia|].
    assert (Hmi : matches w i).
    { destruct i as [|i']; [lia|]. simpl. exists (ls, lm).
      replace (S i' - 1)%nat with i' in Hlast by lia.
      split; [|done]. rewrite Hsample. f_equal. f_equal; lia. }
    destruct (Z.of_nat c + 1 >=? requiredChecks) eqn:Hge.
    + inversion Hr; subst. left. split; [done|]. exists i.
      split; [done|]. split; [done|]. split; [done|]. split.
      * unfold matches_needed. lia.
      * intros j Hj. destruct (decide (j = i)) as [-> | Hne]; [done|].
        apply Hrunm. unfold matches_needed in Hj. lia.
    + eapply IH; [|exact Hr]. split.
      * apply running_step; try done.
        intros [Hle Hall]. apply Hmax. apply Hall.
        unfold matches_needed in *. lia.
      * right. exists (S c).
        split; [lia|]. split; [lia|]. split; [|split; [|split]].
        -- replace (S i - 1)%nat with i by lia. rewrite Hsample.
           f_equal. f_equal; lia.
        -- intros j Hj. destruct (decide (j = i)) as [-> | Hne]; [done|].
           apply Hrunm. lia.
        -- by replace (S i - S c)%nat with (i - c)%nat by lia.
        -- lia.
  - (* first sample, or the file changed: the run starts again *)
    assert (Hnm : ~ matches w i).
    { destruct i as [|i']; [intros []|]. simpl. intros (s & Hs1 & Hs2).
      destruct Hst as [[? _] | (c & -> & Hc & Hlast & _)]; [lia|].
      replace (S i' - 1)%nat with i' in Hlast by lia.
      rewrite Hsample in Hs1. rewrite Hlast in Hs2.
      inversion Hs1; subst. inversion Hs2; subst.
      rewrite !Z.eqb_refl in Hsame.
      apply andb_false_iff in Hsame as [Hsame|]; [|done].
      apply andb_false_iff in Hsame as [Hsame|]; [lia | done]. }
    eapply IH; [|exact Hr]. split.
    + apply running_step; try done.
      intros [Hle Hall]. apply Hnm, Hall. pose proof matches_needed_pos. lia.
    + right. exists 1%nat.
      split; [lia|]. split; [lia|]. split; [|split; [|split]].
      * by replace (S i - 1)%nat with i by lia.
      * intros j Hj. lia.
      * by replace (S i - 1)%nat with i by lia.
      * lia.
Qed.

(** More fuel does not change an answer. *)
Lemma isStable_loop_more_fuel (fuel : nat) :
  forall fuel' i lastSize lastModTime stableCount r,
    (fuel <= fuel')%nat ->
    isStable_loop w maxWait requiredChecks fuel i
      lastSize lastModTime stableCount = Some r ->
    isStable_loop w maxWait requiredChecks fuel' i
      lastSize lastModTime stableCount = Some r.
Proof.
  induction fuel as [|fuel IH]; intros fuel' i ls lm sc r Hle Hr;
    [discriminate|].
  destruct fuel' as [|fuel']; [lia|]. cbn [isStable_loop] in *.
  destruct (since (w i) >? maxWait); [done|].
  destruct (stat (w i)) as [info|]; [|done].
  destruct (_ && _).
  - destruct (_ >=? _); [done|]. apply IH; [lia | done].
  - apply IH; [lia | done].
Qed.

Variable interval : Z.
Hypothesis Hsleeps : sleeps w interval.

Lemma isStable_loop_returns (f : nat) :
  forall i lastSize lastModTime stableCount,
    since (w i) + Z.of_nat f * interval > maxWait ->
    exists r, isStable_loop w maxWait requiredChecks (S f) i
                lastSize lastModTime stableCount = Some r.
Proof.
  destruct Hsleeps as [_ Hadv].
  induction f as [|f IH]; intros i ls lm sc Hbudget.
  - exists (true, true). simpl.
    destruct (since (w i) >? maxWait) eqn:Ht; [done | lia].
  - cbn [isStable_loop].
    destruct (since (w i) >? maxWait); [by eexists|].
    destruct (stat (w i)) as [info|]; [|by eexists].
    pose proof (Hadv i).
    destruct (_ && _).
    + destruct (_ >=? _); [by eexists|]. apply IH. lia.
    + apply IH. lia.
Qed.






End Prober.

Section ProberContract.
Import Watcher.

Lemma enough_fuel_outlasts (cfg : Config.StabilityConfig) :
  Config.ConfirmationIntervalMs cfg > 0 ->
  Z.of_nat (Nat.pred (enough_fuel cfg)) * Config.GetConfirmationInterval cfg
  > Config.GetMaxWait cfg.
Proof.
  intros Hpos. unfold enough_fuel. simpl Nat.pred.
  set (b := Config.GetConfirmationInterval cfg).
  set (a := Config.GetMaxWait cfg).
  assert (Hb : 0 < b) by (unfold b, Config.GetConfirmationInterval,
                          Config.Millisecond; lia).
  pose proof (Z.mul_succ_div_gt a b Hb).
  assert (a / b <= Z.of_nat (Z.to_nat (a / b))) by lia.
  nia.
Qed.


Lemma steady_world_sleeps :
  sleeps steady_world (Config.GetConfirmationInterval three_checks).
Proof.
  split; [done|]. intros i. unfold steady_world, three_checks,
    Config.GetConfirmationInterval, Config.Millisecond. simpl since.
  cbn [Config.ConfirmationIntervalMs]. lia.
Defined.

Lemma three_checks_valid : valid_policy three_checks.
Proof. unfold valid_policy, three_checks. simpl. lia. Defined.



End ProberContract.


(* ===================================================================== *)
(** * Retry loop *)
(* ===================================================================== *)

Section Retry.
Import Uploader.

Variable net : Network.
Variable m : nat.

Lemma retry_loop_step (left attempt : nat) (backoff : Z) (lastErr : LastErr) :
  retry_loop net m (S left) attempt backoff lastErr =
  if (0 <? attempt)%nat && ctxDone net attempt then (Some ErrCancelled, [])
  else
    let pre := if (0 <? attempt)%nat then [EvSleep backoff] else [] in
    let backoff' := if (0 <? attempt)%nat then backoff * 2 else backoff in
    match verdict (do net attempt) with
    | Some r => (r, pre ++ [EvDo attempt])
    | None =>
        let '(r, evs) := retry_loop net m left (S attempt) backoff'
                           (err_of (do net attempt)) in
        (r, pre ++ EvDo attempt :: evs)
    end.
Proof.
  cbn [retry_loop]. unfold verdict, err_of.
  destruct (0 <? attempt)%nat; cbn [andb];
    [destruct (ctxDone net attempt); [done|]|];
    destruct (do net attempt) as [[]|st body]; try done;
    repeat (destruct (_ && _); try done);
    by destruct (retry_loop _ _ _ _ _ _).
Qed.

Lemma retry_loop_prefix (left : nat) :
  forall attempt backoff lastErr,
    (retry_loop net m left attempt backoff lastErr).2
    `prefix_of` schedule_from left attempt backoff.
Proof.
  induction left as [|left IH]; intros attempt backoff lastErr.
  { apply prefix_nil. }
  rewrite retry_loop_step. cbn [schedule_from].
  destruct (0 <? attempt)%nat; cbn [andb].
  - destruct (ctxDone net attempt); [apply prefix_nil|].
    cbn zeta. destruct (verdict (do net attempt)) as [r|].
    + simpl. do 2 apply prefix_cons. apply prefix_nil.
    + specialize (IH (S attempt) (backoff * 2) (err_of (do net attempt))).
      destruct (retry_loop _ _ _ _ _ _) as [r evs]. simpl in *.
      by do 2 apply prefix_cons.
  - cbn zeta. destruct (verdict (do net attempt)) as [r|].
    + simpl. apply prefix_cons, prefix_nil.
    + specialize (IH (S attempt) backoff (err_of (do net attempt))).
      destruct (retry_loop _ _ _ _ _ _) as [r evs]. simpl in *.
      by apply prefix_cons.
Qed.

Lemma retry_loop_first (left attempt : nat) (backoff : Z) (lastErr : LastErr) :
  (0 <? attempt)%nat && ctxDone net attempt = false ->
  EvDo attempt ∈ (retry_loop net m (S left) attempt backoff lastErr).2.
Proof.
  intros H. rewrite retry_loop_step, H. cbn zeta.
  destruct (verdict _); [|destruct (retry_loop _ _ _ _ _ _)]; simpl;
    destruct (0 <? attempt)%nat; simpl;
    repeat first [apply list_elem_of_here | apply list_elem_of_further].
Qed.

Lemma last_sleep_do (b : bool) (backoff : Z) (k : nat) (evs : list Event) (y : Event) :
  last evs = Some y ->
  last ((if b then [EvSleep backoff] else []) ++ EvDo k :: evs) = Some y.
Proof.
  intros H. rewrite last_app. rewrite last_cons, H. done.
Qed.

(** The fate of the run after attempt [k]. *)
Lemma retry_loop_attempt (left : nat) :
  forall attempt backoff lastErr k,
    let run := retry_loop net m left attempt backoff lastErr in
    EvDo k ∈ run.2 ->
    (attempt <= k < attempt + left)%nat /\
    (forall r, verdict (do net k) = Some r ->
               run.1 = r /\ last run.2 = Some (EvDo k)) /\
    (verdict (do net k) = None ->
     if decide (S k < attempt + left)%nat then
       if ctxDone net (S k)
       then run.1 = Some ErrCancelled /\ last run.2 = Some (EvDo k)
       else EvDo (S k) ∈ run.2
     else
       (exists e, run.1 = Some (ErrExhausted (m + 1) e)) /\
       last run.2 = Some (EvDo k)).
Proof.
  induction left as [|left IH]; intros attempt backoff lastErr k run Hk.
  { by apply elem_of_nil in Hk. }
  subst run. revert Hk. rewrite retry_loop_step.
  destruct ((0 <? attempt)%nat && ctxDone net attempt) eqn:Hc.
  { intros Hk. by apply elem_of_nil in Hk. }
  cbn zeta.
  set (pre := if (0 <? attempt)%nat then [EvSleep backoff] else []).
  assert (Hpre : forall j, EvDo j ∉ pre).
  { intros j. unfold pre. destruct (0 <? attempt)%nat.
    - intros H%list_elem_of_singleton. discriminate.
    - apply not_elem_of_nil. }
  destruct (verdict (do net attempt)) as [r|] eqn:Hv.
  - (* the loop returns after this attempt *)
    simpl. intros Hk.
    assert (k = attempt) as ->.
    { apply elem_of_app in Hk as [Hk | Hk]; [by apply Hpre in Hk|].
      apply list_elem_of_singleton in Hk. by inversion Hk. }
    split; [lia|]. split.
    + intros r' Hr'. rewrite Hv in Hr'. inversion Hr'; subst.
      split; [done|]. by rewrite last_snoc.
    + intros Hn. by rewrite Hv in Hn.
  - (* the loop goes on *)
    set (backoff' := if (0 <? attempt)%nat then backoff * 2 else backoff).
    destruct (retry_loop net m left (S attempt) backoff'
                (err_of (do net attempt))) as [r evs] eqn:Hrec.
    simpl. intros Hk.
    apply elem_of_app in Hk as [Hk | Hk]; [by apply Hpre in Hk|].
    apply elem_of_cons in Hk as [Hk | Hk].
    + inversion Hk; subst k. clear Hk.
      split; [lia|]. split; [intros r' Hr'; by rewrite Hv in Hr'|].
      intros _. destruct left as [|left].
      * simpl in Hrec. inversion Hrec; subst.
        destruct (decide _) as [?|_]; [lia|]. split; [by eexists|].
        unfold pre. destruct (0 <? attempt)%nat; done.
      * destruct (decide _) as [_|?]; [|lia].
        destruct (ctxDone net (S attempt)) eqn:Hd.
        -- rewrite retry_loop_step in Hrec. simpl in Hrec.
           rewrite Hd in Hrec. inversion Hrec; subst.
           split; [done|]. unfold pre. by destruct (0 <? attempt)%nat.
        -- apply elem_of_app. right. apply elem_of_cons. right.
           pose proof (retry_loop_first left (S attempt) backoff'
                         (err_of (do net attempt))) as Hf.
           rewrite Hrec in Hf. apply Hf. simpl. exact Hd.
    + pose proof (IH (S attempt) backoff' (err_of (do net attempt)) k) as IHk.
      rewrite Hrec in IHk. cbn [fst snd] in IHk.
      destruct (IHk Hk) as (Hrange & Hdec & Hcont).
      split; [lia|]. split.
      * intros r' Hr'. destruct (Hdec r' Hr') as [-> Hl].
        split; [done|]. by apply last_sleep_do.
      * intros Hn. specialize (Hcont Hn).
        destruct (decide (S k < S attempt + left)%nat) as [H1|H1];
          destruct (decide (S k < attempt + S left)%nat) as [H2|H2];
          try lia.
        -- destruct (ctxDone net (S k)).
           ++ destruct Hcont as [-> Hl]. split; [done|].
              by apply last_sleep_do.
           ++ apply elem_of_app. right. apply elem_of_cons. by right.
        -- destruct Hcont as [He Hl]. split; [done|].
           by apply last_sleep_do.
Qed.

End Retry.

Section RetryPolicy.
Import Uploader.

Lemma verdict_2xx (st : Z) (body : string) :
  is_2xx st -> verdict (DoResponse st body) = Some None.
Proof.
  unfold is_2xx, verdict. intros H.
  destruct (200 <=? st) eqn:?, (st <? 300) eqn:?; try lia. done.
Qed.

Lemma verdict_4xx (st : Z) (body : string) :
  is_4xx st -> verdict (DoResponse st body) = Some (Some (ErrClient st body)).
Proof.
  unfold is_4xx, verdict. intros H.
  destruct (200 <=? st) eqn:?, (st <? 300) eqn:?,
           (400 <=? st) eqn:?, (st <? 500) eqn:?; try lia; done.
Qed.

Lemma verdict_retryable (r : DoResult) : retryable r -> verdict r = None.
Proof.
  unfold retryable, is_5xx, verdict. intros [-> | (st & body & -> & H)];
    [done|].
  destruct (200 <=? st) eqn:?, (st <? 300) eqn:?,
           (400 <=? st) eqn:?, (st <? 500) eqn:?; try lia; done.
Qed.

(** C4.  A run of [executeWithRetry] is a prefix of
    attempt, 1 s, attempt, 2 s, attempt, 4 s, attempt: at most four
    attempts, with these sleeps between them.  An attempt answered by a
    2xx ends the run with success; one answered by a 4xx ends it with the
    client error; a transport failure under a cancelled context ends it
    with the cancellation error.  After a 5xx or a transport failure the
    loop goes on: it returns the cancellation error without another
    attempt if the context is done during the wait, makes the next
    attempt otherwise, and reports the failure after the fourth. *)
Theorem executeWithRetry_policy (net : Network) :
  let run := executeWithRetry net in
  run.2 `prefix_of` full_schedule /\
  EvDo 0 ∈ run.2 /\
  forall k, EvDo k ∈ run.2 ->
    (k <= 3)%nat /\
    (forall st body, do net k = DoResponse st body -> is_2xx st ->
       run.1 = None /\ last run.2 = Some (EvDo k)) /\
    (forall st body, do net k = DoResponse st body -> is_4xx st ->
       run.1 = Some (ErrClient st body) /\ last run.2 = Some (EvDo k)) /\
    (do net k = DoError true ->
       run.1 = Some ErrCancelled /\ last run.2 = Some (EvDo k)) /\
    (retryable (do net k) ->
       if decide (k < 3)%nat then
         if ctxDone net (S k)
         then run.1 = Some ErrCancelled /\ last run.2 = Some (EvDo k)
         else EvDo (S k) ∈ run.2
       else (exists e, run.1 = Some (ErrExhausted 4 e)) /\
            last run.2 = Some (EvDo k)).
Proof.
  intros run. subst run. unfold executeWithRetry.
  split; [apply (retry_loop_prefix net maxRetries (S maxRetries))|].
  split; [by apply retry_loop_first|].
  intros k Hk.
  destruct (retry_loop_attempt net maxRetries (S maxRetries) 0
              Config.Second NoErr k Hk) as (Hrange & Hdec & Hcont).
  unfold maxRetries in *.
  split; [lia|]. split; [|split; [|split]].
  - intros st body Hdo H2. apply Hdec. rewrite Hdo. by apply verdict_2xx.
  - intros st body Hdo H4. apply Hdec. rewrite Hdo. by apply verdict_4xx.
  - intros Hdo. apply Hdec. by rewrite Hdo.
  - intros Hre. specialize (Hcont (verdict_retryable _ Hre)).
    destruct (decide (S k < 0 + 4)%nat), (decide (k < 3)%nat); try lia; done.
Qed.

End RetryPolicy.

(* ===================================================================== *)
(** * Dispatcher queue *)
(* ===================================================================== *)

Section Queue.
Import Uploader.

Lemma Enqueue_returned_inv (pick : bool) (d d' : Dispatcher) (p log : string)
    (t : bool) :
  queue_inv d -> Enqueue pick d p t = Returned d' log -> queue_inv d'.
Proof.
  intros Hinv. pose proof Hinv as (Hcap & Hlen & Hcl).
  unfold Enqueue, select, send_ready.
  assert (Happ : (length (buf (workQueue d)) <? cap (workQueue d))%nat = true ->
    queue_inv
      (with_queue d
         {| buf := buf (workQueue d)
                   ++ [{| path := p; processedDueToTimeout := t |}];
            cap := cap (workQueue d); closed := false |})).
  { intros Hlt%Nat.ltb_lt. split; [|split]; simpl; [done | | done].
    rewrite length_app. simpl. lia. }
  destruct (ctx d); [done | |];
    destruct (closed (workQueue d)); cbn [orb];
    try destruct (_ <? _)%nat eqn:Hlt; try destruct pick;
    intros H; inversion H; subst; auto.
Qed.

Lemma reachable_queue_inv (d : Dispatcher) : reachable d -> queue_inv d.
Proof.
  induction 1 as [m | d _ IH | d _ IH | d _ IH | d _ IH
                 | d pick p t d' log _ IH HE | d e d' _ IH HR].
  - repeat split; simpl; [lia | done].
  - exact IH.
  - exact IH.
  - unfold cancel. by destruct (ctx d).
  - destruct IH as (Hcap & Hlen & Hcl). unfold Stop, cancel.
    destruct (stopped d) eqn:Hs; [done|].
    by destruct (ctx d).
  - by eapply Enqueue_returned_inv.
  - destruct IH as (Hcap & Hlen & Hcl). unfold receive in HR.
    destruct (buf (workQueue d)) as [|e0 rest] eqn:Hb; [done|].
    inversion HR; subst. split; [|split]; simpl in *; [done | lia | done].
Qed.

(** C7.  The queue of a dispatcher never holds more than 100 jobs, and
    [Enqueue] never blocks.  On a started dispatcher with a full queue
    the job is dropped: the dispatcher is unchanged and the queue-full
    line is logged.  With room in the queue the job is appended at the
    tail; workers take jobs from the head. *)
Theorem Enqueue_bounded_never_blocks :
  (forall d, reachable d -> (length (buf (workQueue d)) <= 100)%nat) /\
  (forall pick d p t, Enqueue pick d p t <> Blocked) /\
  (forall pick d p t,
      reachable d -> started d ->
      length (buf (workQueue d)) = 100%nat ->
      Enqueue pick d p t =
      Returned d ("Upload queue full, dropping: " +:+ p)) /\
  (forall pick d p t,
      reachable d -> started d ->
      (length (buf (workQueue d)) < 100)%nat ->
      exists d',
        Enqueue pick d p t = Returned d' ("Enqueued for upload: " +:+ p) /\
        buf (workQueue d') =
        buf (workQueue d) ++ [{| path := p; processedDueToTimeout := t |}]) /\
  (forall d e d',
      receive d = Some (e, d') ->
      buf (workQueue d) = e :: buf (workQueue d')).
Proof.
  split; [|split; [|split; [|split]]].
  - intros d Hd. by destruct (reachable_queue_inv d Hd) as (_ & ? & _).
  - intros pick d p t. unfold Enqueue, select.
    destruct (ctx d); [done | |];
      destruct (send_ready (workQueue d)); try destruct pick;
      by destruct (closed (workQueue d)).
  - intros pick d p t Hd [Hctx Hst] Hfull.
    destruct (reachable_queue_inv d Hd) as (Hcap & _ & Hcl).
    unfold Enqueue, select, send_ready. rewrite Hctx.
    destruct (closed (workQueue d)); [by rewrite Hcl in Hst|].
    rewrite Hcap, Hfull. done.
  - intros pick d p t Hd [Hctx Hst] Hroom.
    destruct (reachable_queue_inv d Hd) as (Hcap & _ & Hcl).
    unfold Enqueue, select, send_ready. rewrite Hctx.
    destruct (closed (workQueue d)); [by rewrite Hcl in Hst|].
    rewrite Hcap. apply Nat.ltb_lt in Hroom. rewrite Hroom. simpl.
    eexists. split; [done|]. done.
  - intros d e d'. unfold receive.
    destruct (buf (workQueue d)); [done|]. intros H. by inversion H.
Qed.

(** Once the context is done the third arm of the [select] is ready
    too: with room in the queue the scheduler may take either, and the
    job may be dropped. *)
Lemma Enqueue_after_cancel (m : Shadow.Manager) (p : string) (t : bool) :
  let d := cancel (Start (NewDispatcher m)) in
  Enqueue false d p t =
  Returned d ("Dispatcher stopped, cannot enqueue: " +:+ p).
Proof. reflexivity. Qed.

End Queue.

(* ===================================================================== *)
(** * Worker: the deletion of the source *)
(* ===================================================================== *)

Section Worker.
Import Uploader.

Lemma Store_disabled (m : Shadow.Manager) os now fs src :
  Config.Enabled (Shadow.config m) = false ->
  Shadow.Store m os now fs src = (fs, None).
Proof. unfold Shadow.Store. by intros ->. Qed.

(** C2.  The worker removes the source file of a job exactly when the
    upload succeeded, the job is not flagged processed_due_to_timeout,
    [Store] returned no error, and the size and modification time read
    just before the deletion equal those read before the shadow copy; in
    every other case no removal is among its actions.  With shadow
    disabled [Store] succeeds without doing anything. *)
Theorem worker_deletes_only_when_safe (d : Dispatcher) (os : JobOs)
    (event : fileEvent) :
  (forall p,
      ActRemove p ∈ process d os event <->
      p = path event /\
      upload_succeeded os /\
      processedDueToTimeout event = false /\
      shadow_succeeded d os event /\
      unchanged_since_snapshot os) /\
  (Config.Enabled (Shadow.config (shadowManager d)) = false ->
   shadow_succeeded d os event).
Proof.
  split.
  2:{ intros Hoff. unfold shadow_succeeded. by rewrite Store_disabled. }
  intros p. unfold process, upload_succeeded, shadow_succeeded,
    unchanged_since_snapshot.
  destruct (statBeforeUpload os) as [fileInfo|].
  2:{ split; [by intros ?%elem_of_nil | by intros (_ & [? _] & _)]. }
  destruct (Upload os) as [e|].
  { split; [|by intros (_ & [_ ?] & _)].
    intros H%list_elem_of_singleton. discriminate. }
  assert (Hcalled : forall q,
    ActRemove q ∉ ActUpload (path event)
                    (Watcher.Size fileInfo >? 100 * 1024 * 1024)
                  :: (if onSuccessfulUpload d
                      then [ActCallback (path event)] else [])).
  { intros q H. apply elem_of_cons in H as [H|H]; [discriminate|].
    destruct (onSuccessfulUpload d).
    - apply list_elem_of_singleton in H. discriminate.
    - by apply elem_of_nil in H. }
  destruct (processedDueToTimeout event).
  { split; [by intros ?%Hcalled | by intros (_ & _ & ? & _)]. }
  destruct (statBeforeShadow os) as [pre|].
  2:{ split; [by intros ?%Hcalled | by intros (_ & _ & _ & _ & ? & ? & ? & _)]. }
  destruct (Shadow.Store _ _ _ _ _).2 as [e|].
  { split; [|by intros (_ & _ & _ & ? & _)].
    intros [H|H]%elem_of_app; [by apply Hcalled in H|].
    apply list_elem_of_singleton in H. discriminate. }
  assert (Hstored : forall q,
    ActRemove q ∉ (ActUpload (path event)
                     (Watcher.Size fileInfo >? 100 * 1024 * 1024)
                   :: (if onSuccessfulUpload d
                       then [ActCallback (path event)] else []))
                  ++ [ActStore (path event)]).
  { intros q [H|H]%elem_of_app; [by apply Hcalled in H|].
    apply list_elem_of_singleton in H. discriminate. }
  destruct (statBeforeDelete os) as [post|].
  2:{ split; [by intros ?%Hstored|].
      by intros (_ & _ & _ & _ & ? & ? & _ & ? & _). }
  destruct (negb (Watcher.Size post =? Watcher.Size pre)
            || negb (Watcher.ModTime post =? Watcher.ModTime pre)) eqn:Hch.
  - split; [by intros ?%Hstored|].
    intros (_ & _ & _ & _ & pre' & post' & Hpre & Hpost & Hs & Hm).
    inversion Hpre; inversion Hpost; subst.
    rewrite Hs, Hm, !Z.eqb_refl in Hch. done.
  - apply orb_false_iff in Hch as [Hs%negb_false_iff Hm%negb_false_iff].
    apply Z.eqb_eq in Hs, Hm. split.
    + intros [H|H]%elem_of_app; [by apply Hstored in H|].
      apply list_elem_of_singleton in H. inversion H; subst.
      repeat split; try done. by exists pre, post.
    + intros (-> & _). apply elem_of_app. right.
      by apply list_elem_of_singleton.
Qed.

End Worker.

(* ===================================================================== *)
(** * Shadow archive names *)
(* ===================================================================== *)

Section ShadowNames.
Import Shadow.




















(** Both copies land on one entry of the archive: the second call
    overwrites what the first one stored. *)
Example run_stores_one_entry :
  run_stores archiver two_quick_calls {[ "/data/in/a.txt" := "hello" ]}
  = <[ "/var/shadow/20250101-120000.000000-a.txt" := "hello" ]>
      {[ "/data/in/a.txt" := "hello" ]}.
Proof. vm_compute. reflexivity. Qed.

End ShadowNames.

(* ===================================================================== *)
(** * Paths: splitting, joining and cleaning *)
(* ===================================================================== *)

Section Paths.
Import GoStrings Filepath.

Local Abbreviation sep := ("/"%char).

#[local] Arguments Ascii.eqb : simpl never.

Lemma HasPrefix_nil (s : string) : HasPrefix s "" = true.
Proof. by destruct s. Qed.

Lemma HasPrefix_sep (c : ascii) (s : string) :
  HasPrefix (String c s) "/" = Ascii.eqb sep c.
Proof. simpl. rewrite HasPrefix_nil. by destruct (Ascii.eqb sep c). Qed.

Lemma HasPrefix_app (a b : string) : HasPrefix (a +:+ b) a = true.
Proof.
  induction a as [|c a IH]; [by destruct b|].
  rewrite app_cons_s. simpl. by rewrite Ascii.eqb_refl.
Qed.

Lemma Contains_sep_cons (c : ascii) (s : string) :
  Contains (String c s) "/" = Ascii.eqb sep c || Contains s "/".
Proof.
  change (Contains (String c s) "/")
    with (HasPrefix (String c s) "/" || Contains s "/").
  by rewrite HasPrefix_sep.
Qed.

Lemma Split_cons (s : string) : exists h t, Split s sep = h :: t.
Proof.
  induction s as [|c s (h & t & IH)]; [by eexists _, _|].
  simpl. destruct (Ascii.eqb c sep); [by eexists _, _|].
  rewrite IH. by eexists _, _.
Qed.

Lemma Split_no_sep (s : string) :
  Contains s "/" = false -> Split s sep = [s].
Proof.
  induction s as [|c s IH]; [done|]. rewrite Contains_sep_cons.
  intros [Hc Hs]%orb_false_iff. simpl.
  rewrite Ascii.eqb_sym, Hc. by rewrite (IH Hs).
Qed.

Lemma Split_app_sep (a b : string) :
  Split (a +:+ String sep b) sep = Split a sep ++ Split b sep.
Proof.
  induction a as [|c a IH]; [done|]. rewrite app_cons_s. simpl.
  destruct (Ascii.eqb c sep); [by rewrite IH|].
  rewrite IH. by destruct (Split_cons a) as (h & t & ->).
Qed.

Lemma Split_elems (s : string) :
  Forall (fun e => Contains e "/" = false) (Split s sep).
Proof.
  induction s as [|c s IH]; [by repeat constructor|]. simpl.
  destruct (Ascii.eqb c sep) eqn:Hc; [by constructor|].
  destruct (Split_cons s) as (h & t & Hs). rewrite Hs in *.
  apply Forall_cons in IH as [Hh Ht]. constructor; [|done].
  by rewrite Contains_sep_cons, Ascii.eqb_sym, Hc, Hh.
Qed.

Lemma Join_cons_cons (e e' : string) (l : list string) :
  GoStrings.Join (e :: e' :: l) "/" = e +:+ "/" +:+ GoStrings.Join (e' :: l) "/".
Proof. done. Qed.

Lemma Split_Join (l : list string) :
  Forall (fun e => Contains e "/" = false) l -> l <> [] ->
  Split (GoStrings.Join l "/") sep = l.
Proof.
  induction l as [|e l IH]; [done|]. intros [He Hl]%Forall_cons _.
  destruct l as [|e' l]; [by apply Split_no_sep|].
  rewrite Join_cons_cons.
  change ("/" +:+ GoStrings.Join (e' :: l) "/")
    with (String sep (GoStrings.Join (e' :: l) "/")).
  rewrite Split_app_sep, (Split_no_sep e He), IH; done.
Qed.

Lemma Join_app (l1 l2 : list string) :
  l1 <> [] -> l2 <> [] ->
  GoStrings.Join (l1 ++ l2) "/"
  = GoStrings.Join l1 "/" +:+ "/" +:+ GoStrings.Join l2 "/".
Proof.
  intros H1 H2. induction l1 as [|e l1 IH]; [done|].
  destruct l1 as [|e' l1].
  - destruct l2; [done|]. done.
  - change ((e :: e' :: l1) ++ l2) with (e :: e' :: (l1 ++ l2)).
    rewrite !Join_cons_cons.
    change (e' :: l1 ++ l2) with ((e' :: l1) ++ l2).
    rewrite IH by done. by rewrite !app_assoc_s.
Qed.

Lemma plain_no_sep (e : string) : plain e -> Contains e "/" = false.
Proof. by intros (_ & _ & _ & ?). Qed.

Lemma plain_not_rooted (e : string) (l : list string) :
  plain e -> HasPrefix (GoStrings.Join (e :: l) "/") "/" = false.
Proof.
  intros (Hne & _ & _ & Hsep). destruct e as [|c e]; [done|].
  rewrite Contains_sep_cons in Hsep.
  apply orb_false_iff in Hsep as [Hc _].
  destruct l as [|e' l].
  - change (GoStrings.Join [String c e] "/") with (String c e).
    by rewrite HasPrefix_sep.
  - rewrite Join_cons_cons, app_cons_s. by rewrite HasPrefix_sep.
Qed.

Lemma clean_step_plain (rooted : bool) (out : list string) (e : string) :
  plain e -> clean_step rooted out e = out ++ [e].
Proof.
  intros (H1 & H2 & H3 & _). unfold clean_step.
  apply String.eqb_neq in H1, H2, H3. by rewrite H1, H2, H3.
Qed.

Lemma clean_fold_plain (rooted : bool) (l out : list string) :
  Forall plain l -> fold_left (clean_step rooted) l out = out ++ l.
Proof.
  revert out. induction l as [|e l IH]; intros out Hl.
  - by rewrite app_nil_r.
  - apply Forall_cons in Hl as [He Hl]. simpl.
    rewrite clean_step_plain, IH by done. by rewrite <- app_assoc.
Qed.

Lemma clean_step_rooted_plain (out : list string) (e : string) :
  Forall plain out -> Contains e "/" = false ->
  Forall plain (clean_step true out e).
Proof.
  intros Hout He. unfold clean_step.
  destruct (String.eqb e "") eqn:H1; [done|].
  destruct (String.eqb e ".") eqn:H2; [done|].
  destruct (String.eqb e "..") eqn:H3.
  - destruct (last out) as [top|] eqn:Hlast; [|done].
    destruct (String.eqb top "..") eqn:Htop.
    + apply String.eqb_eq in Htop as ->.
      apply last_Some in Hlast as [l' ->].
      apply Forall_app in Hout as [_ [(_ & _ & ? & _) _]%Forall_cons]. done.
    + apply last_Some in Hlast as [l' ->].
      rewrite removelast_last. by apply Forall_app in Hout as [? _].
  - apply Forall_app. split; [done|]. constructor; [|done].
    apply String.eqb_neq in H1, H2, H3. done.
Qed.

Lemma clean_fold_rooted_plain (l out : list string) :
  Forall plain out -> Forall (fun e => Contains e "/" = false) l ->
  Forall plain (fold_left (clean_step true) l out).
Proof.
  revert out. induction l as [|e l IH]; intros out Hout Hl; [done|].
  apply Forall_cons in Hl as [He Hl]. simpl.
  apply IH; [|done]. by apply clean_step_rooted_plain.
Qed.

Lemma Clean_of_rooted (p : string) :
  HasPrefix p "/" = true ->
  Clean p = rooted_at (clean_elems true (Split p Separator)).
Proof.
  intros Hr. unfold Clean. destruct p as [|c p]; [done|].
  change (String.eqb (String c p) "") with false. cbv iota.
  by rewrite Hr.
Qed.

(** Cleaning a rooted path gives the separator followed by ordinary
    elements. *)
Lemma Clean_rooted (p : string) :
  HasPrefix p "/" = true ->
  exists B, Forall plain B /\ Clean p = rooted_at B.
Proof.
  intros Hr. rewrite (Clean_of_rooted p Hr).
  eexists. split; [|done].
  apply clean_fold_rooted_plain; [done | apply Split_elems].
Qed.

Lemma rooted_at_rooted (B : list string) (s : string) :
  HasPrefix (rooted_at B +:+ s) "/" = true.
Proof.
  unfold rooted_at. rewrite app_assoc_s.
  change ("/" +:+ GoStrings.Join B "/" +:+ s)
    with (String sep (GoStrings.Join B "/" +:+ s)).
  by rewrite HasPrefix_sep, Ascii.eqb_refl.
Qed.

Lemma rooted_at_neq_empty (B : list string) : rooted_at B <> "".
Proof. done. Qed.

(** The elements of a cleaned absolute path followed by a relative
    path of ordinary elements. *)
Lemma clean_elems_rooted_join (B R : list string) :
  Forall plain B -> Forall plain R -> R <> [] ->
  clean_elems true
    (Split (rooted_at B +:+ "/" +:+ GoStrings.Join R "/") Separator)
  = B ++ R.
Proof.
  intros HB HR HRne. unfold rooted_at, clean_elems.
  assert (HRsep : Forall (fun e => Contains e "/" = false) R).
  { eapply Forall_impl; [exact HR | apply plain_no_sep]. }
  assert (HBsep : Forall (fun e => Contains e "/" = false) B).
  { eapply Forall_impl; [exact HB | apply plain_no_sep]. }
  change ("/" +:+ GoStrings.Join B "/") with (String sep (GoStrings.Join B "/")).
  rewrite app_cons_s.
  change (String sep (GoStrings.Join B "/" +:+ "/" +:+ GoStrings.Join R "/"))
    with ("" +:+ String sep (GoStrings.Join B "/" +:+ "/" +:+ GoStrings.Join R "/")).
  rewrite Split_app_sep.
  change ("/" +:+ GoStrings.Join R "/") with (String sep (GoStrings.Join R "/")).
  rewrite Split_app_sep, (Split_Join R HRsep HRne).
  rewrite !fold_left_app. simpl fold_left at 3.
  destruct B as [|b B].
  - simpl. by rewrite clean_fold_plain.
  - rewrite (Split_Join (b :: B) HBsep) by done.
    change (clean_step true [] "") with (@nil string).
    rewrite (clean_fold_plain true (b :: B) []) by done.
    by rewrite clean_fold_plain.
Qed.

Lemma Join_rooted (B R : list string) :
  Forall plain B -> Forall plain R -> R <> [] ->
  Filepath.Join [rooted_at B; GoStrings.Join R "/"] = rooted_at (B ++ R).
Proof.
  intros HB HR HRne.
  change (Filepath.Join [rooted_at B; GoStrings.Join R "/"])
    with (Clean (rooted_at B +:+ "/" +:+ GoStrings.Join R "/")).
  rewrite Clean_of_rooted by apply rooted_at_rooted.
  by rewrite clean_elems_rooted_join.
Qed.

Lemma clean_elems_rooted (L : list string) :
  Forall plain L ->
  clean_elems true (Split (rooted_at L) Separator) = L.
Proof.
  intros HL. unfold rooted_at, clean_elems.
  change ("/" +:+ GoStrings.Join L "/")
    with ("" +:+ String sep (GoStrings.Join L "/")).
  rewrite Split_app_sep, fold_left_app. simpl fold_left at 2.
  change (clean_step true [] "") with (@nil string).
  destruct L as [|e L]; [done|].
  rewrite Split_Join; [by rewrite clean_fold_plain | | done].
  eapply Forall_impl; [exact HL | apply plain_no_sep].
Qed.

Lemma Clean_rooted_at (L : list string) :
  Forall plain L -> Clean (rooted_at L) = rooted_at L.
Proof.
  intros HL. rewrite Clean_of_rooted.
  - by rewrite clean_elems_rooted.
  - rewrite <- (app_nil_r_s (rooted_at L)). apply rooted_at_rooted.
Qed.

Lemma rooted_at_inj (L L' : list string) :
  Forall plain L -> Forall plain L' -> rooted_at L = rooted_at L' -> L = L'.
Proof.
  intros HL HL' Heq.
  by rewrite <- (clean_elems_rooted L HL), Heq, clean_elems_rooted.
Qed.

End Paths.

(* ===================================================================== *)
(** * Path containment of the ingest handler *)
(* ===================================================================== *)

Section Containment.
Import GoStrings Filepath Ingress.

#[local] Arguments Ascii.eqb : simpl never.

Lemma sanitizeFilename_plain (filename safe : string) :
  sanitizeFilename filename = Ok safe -> plain safe.
Proof.
  unfold sanitizeFilename. intros H.
  destruct (Contains filename NUL); [done|].
  destruct (String.eqb filename "") eqn:H1; [done|].
  destruct (Contains filename ".."); [done|].
  destruct (Contains filename "/") eqn:H2; [done|].
  destruct (Contains filename "\"); [done|]. cbn [orb] in H.
  destruct (String.eqb filename ".") eqn:H3; [done|].
  destruct (String.eqb filename "..") eqn:H4; [done|]. cbn [orb] in H.
  destruct (negb _); [done|]. inversion H; subst.
  apply String.eqb_neq in H1, H3, H4. done.
Qed.

Lemma bad_component_none (parts : list string) :
  bad_component parts = None ->
  Forall (fun e => e <> "" /\ e <> "." /\ e <> "..") parts.
Proof.
  induction parts as [|e parts IH]; [constructor|]. simpl.
  destruct (String.eqb e "") eqn:H1; [done|].
  destruct (String.eqb e ".") eqn:H2; [done|].
  destruct (String.eqb e "..") eqn:H3; [done|]. cbn [orb].
  intros H. apply String.eqb_neq in H1, H2, H3.
  constructor; [done | by apply IH].
Qed.

Lemma Clean_of_relative (p : string) (e : string) (l : list string) :
  p <> "" -> HasPrefix p "/" = false ->
  clean_elems false (Split p Separator) = e :: l ->
  Clean p = GoStrings.Join (e :: l) "/".
Proof.
  intros Hne Hr Hout. unfold Clean.
  apply String.eqb_neq in Hne. by rewrite Hne, Hr, Hout.
Qed.

Lemma sanitizeSubdirectoryPath_plain (subdir safe : string) :
  sanitizeSubdirectoryPath subdir = Ok safe ->
  exists e parts,
    Forall plain (e :: parts) /\ safe = GoStrings.Join (e :: parts) "/".
Proof.
  unfold sanitizeSubdirectoryPath, ToSlash, FromSlash, IsAbs. intros H.
  destruct (Contains subdir NUL); [done|].
  destruct (String.eqb subdir "") eqn:Hne; [done|].
  destruct (Contains subdir ".."); [done|].
  destruct (HasPrefix subdir "/") eqn:Hr; [done|]. cbn [orb] in H.
  destruct (bad_component (Split subdir "/")) eqn:Hbad; [done|].
  destruct (_ || _); [done|]. inversion H; subst. clear H.
  apply bad_component_none in Hbad.
  pose proof (Split_elems subdir) as Hsep.
  destruct (Split_cons subdir) as (e & parts & Hs).
  change (Split subdir "/") with (Split subdir Separator) in *.
  rewrite Hs in *.
  assert (Hplain : Forall plain (e :: parts)).
  { apply Forall_forall. intros x Hx.
    rewrite Forall_forall in Hbad, Hsep.
    destruct (Hbad x Hx) as (? & ? & ?). specialize (Hsep x Hx). done. }
  exists e, parts. split; [done|].
  apply String.eqb_neq in Hne.
  apply Clean_of_relative; [done | done |].
  rewrite Hs. unfold clean_elems. by rewrite clean_fold_plain.
Qed.

Lemma Join_plain_head (e : string) (l : list string) :
  plain e ->
  exists c rest, GoStrings.Join (e :: l) "/" = String c rest.
Proof.
  intros (Hne & _). destruct e as [|c e]; [done|].
  destruct l as [|e' l]; [by eexists _, _|].
  rewrite Join_cons_cons, app_cons_s. by eexists _, _.
Qed.

(** The relative target of a request is a non-empty sequence of
    ordinary elements. *)
Lemma targetRelPath_plain (safeSubdir : option string) (safeName : string) :
  plain safeName ->
  match safeSubdir with
  | Some ss => exists subdir, sanitizeSubdirectoryPath subdir = Ok ss
  | None => True
  end ->
  exists R, Forall plain R /\ R <> [] /\
            targetRelPath safeSubdir safeName = GoStrings.Join R "/".
Proof.
  intros Hname Hsub. destruct safeSubdir as [ss|].
  2:{ exists [safeName]. split; [by constructor | done]. }
  destruct Hsub as [subdir Hsub].
  apply sanitizeSubdirectoryPath_plain in Hsub as (e & parts & Hplain & ->).
  exists ((e :: parts) ++ [safeName]).
  split; [apply Forall_app; split; [done | by constructor]|].
  split; [done|].
  pose proof Hplain as [He _]%Forall_cons.
  destruct (Join_plain_head e parts He) as (c & rest & Hj).
  unfold targetRelPath. cbn [Filepath.Join]. rewrite Hj.
  change (String.eqb (String c rest) "") with false. cbv iota.
  rewrite <- Hj.
  change (GoStrings.Join [GoStrings.Join (e :: parts) "/"; safeName] "/")
    with (GoStrings.Join (e :: parts) "/" +:+ String Separator safeName).
  assert (Hsplit :
    Split (GoStrings.Join (e :: parts) "/" +:+ String Separator safeName)
      Separator = (e :: parts) ++ [safeName]).
  { rewrite Split_app_sep, Split_Join, (Split_no_sep safeName); try done.
    - by apply plain_no_sep.
    - eapply Forall_impl; [exact Hplain | apply plain_no_sep]. }
  apply Clean_of_relative.
  - rewrite Hj. done.
  - rewrite Hj, app_cons_s, HasPrefix_sep.
    pose proof (plain_not_rooted e parts He) as Hnr.
    by rewrite Hj, HasPrefix_sep in Hnr.
  - rewrite Hsplit. unfold clean_elems. rewrite clean_fold_plain; [done|].
    apply Forall_app. split; [done | by constructor].
Qed.

Lemma Abs_rooted (getwd : option string) (path absPath : string) :
  (forall wd, getwd = Some wd -> IsAbs wd = true) ->
  Abs getwd path = Some absPath ->
  exists B, Forall plain B /\ absPath = rooted_at B.
Proof.
  intros Hwd. unfold Abs. destruct (IsAbs path) eqn:Habs.
  - intros H. inversion H. destruct (Clean_rooted path Habs) as (B & ? & ?).
    by exists B.
  - destruct getwd as [wd|]; [|done]. intros H. inversion H. clear H.
    specialize (Hwd wd eq_refl). unfold IsAbs in Hwd.
    destruct wd as [|c wd]; [done|].
    cbn [Filepath.Join].
    change (String.eqb (String c wd) "") with false. cbv iota.
    change (GoStrings.Join [String c wd; path] "/")
      with (String c (wd +:+ "/" +:+ path)).
    destruct (Clean_rooted (String c (wd +:+ "/" +:+ path))) as (B & ? & ?).
    { by rewrite HasPrefix_sep in *. }
    by exists B.
Qed.

Lemma Abs_rooted_at (getwd : option string) (L : list string) :
  Forall plain L -> Abs getwd (rooted_at L) = Some (rooted_at L).
Proof.
  intros HL. unfold Abs, IsAbs.
  rewrite <- (app_nil_r_s (rooted_at L)) at 1.
  rewrite rooted_at_rooted. by rewrite Clean_rooted_at.
Qed.

(** C3.  The path that [validateSubdirectoryPath] returns for a
    sanitized subdirectory and basename (or for a sanitized basename
    alone) begins with the absolute ingest root followed by the
    separator, and is not the root itself; and a relative target whose
    absolute resolution is neither the root nor below it is rejected. *)
Theorem validateSubdirectoryPath_descendant (getwd : option string)
    (baseDir : string) (safeSubdir : option string)
    (filename safeFilename finalPath : string) :
  (forall wd, getwd = Some wd -> IsAbs wd = true) ->
  sanitizeFilename filename = Ok safeFilename ->
  match safeSubdir with
  | Some ss => exists subdir, sanitizeSubdirectoryPath subdir = Ok ss
  | None => True
  end ->
  (validateSubdirectoryPath getwd baseDir
     (targetRelPath safeSubdir safeFilename) = Ok finalPath ->
   exists absBase,
     Abs getwd baseDir = Some absBase /\
     HasPrefix finalPath (absBase +:+ SeparatorString) = true /\
     finalPath <> absBase) /\
  (forall relativePath absBase absFinal,
     Abs getwd baseDir = Some absBase ->
     Abs getwd (Filepath.Join [absBase; relativePath]) = Some absFinal ->
     absFinal <> absBase ->
     HasPrefix absFinal (absBase +:+ SeparatorString) = false ->
     exists msg, validateSubdirectoryPath getwd baseDir relativePath
                 = Err msg).
Proof.
  intros Hwd Hname Hsub. split.
  - unfold validateSubdirectoryPath.
    destruct (Abs getwd baseDir) as [absBase|] eqn:Hbase; [|done].
    destruct (Abs_rooted _ _ _ Hwd Hbase) as (B & HB & ->).
    destruct (targetRelPath_plain safeSubdir safeFilename
                (sanitizeFilename_plain _ _ Hname) Hsub)
      as (R & HR & HRne & ->).
    rewrite Join_rooted by done.
    assert (HBR : Forall plain (B ++ R)) by (by apply Forall_app).
    rewrite Abs_rooted_at by done.
    assert (Hneq : rooted_at (B ++ R) <> rooted_at B).
    { intros Heq. apply rooted_at_inj in Heq; [|done..].
      rewrite <- (app_nil_r B) in Heq at 2.
      by apply app_inv_head in Heq. }
    destruct (HasPrefix _ _) eqn:Hp; cbn [negb andb].
    + intros H. inversion H; subst. by exists (rooted_at B).
    + apply String.eqb_neq in Hneq. by rewrite Hneq.
  - intros relativePath absBase absFinal Hbase Hfinal Hne Hp.
    unfold validateSubdirectoryPath. rewrite Hbase, Hfinal, Hp.
    apply String.eqb_neq in Hne. rewrite Hne. by eexists.
Qed.

Lemma validateSubdirectoryPath_descendant_witness :
  (forall wd, Some "/home/xferd" = Some wd -> IsAbs wd = true) /\
  sanitizeFilename "a.txt" = Ok "a.txt" /\
  (exists subdir, sanitizeSubdirectoryPath subdir = Ok "2025/01") /\
  ((validateSubdirectoryPath (Some "/home/xferd") "/data/invoices"
      (targetRelPath (Some "2025/01") "a.txt")
    = Ok "/data/invoices/2025/01/a.txt" ->
    exists absBase,
      Abs (Some "/home/xferd") "/data/invoices" = Some absBase /\
      HasPrefix "/data/invoices/2025/01/a.txt" (absBase +:+ SeparatorString)
      = true /\
      "/data/invoices/2025/01/a.txt" <> absBase) /\
   (forall relativePath absBase absFinal,
      Abs (Some "/home/xferd") "/data/invoices" = Some absBase ->
      Abs (Some "/home/xferd") (Filepath.Join [absBase; relativePath])
      = Some absFinal ->
      absFinal <> absBase ->
      HasPrefix absFinal (absBase +:+ SeparatorString) = false ->
      exists msg,
        validateSubdirectoryPath (Some "/home/xferd") "/data/invoices"
          relativePath = Err msg)).
Proof.
  assert (Hwd : forall wd, Some "/home/xferd" = Some wd -> IsAbs wd = true).
  { intros wd H. inversion H. reflexivity. }
  assert (Hname : sanitizeFilename "a.txt" = Ok "a.txt") by reflexivity.
  assert (Hsub : exists subdir, sanitizeSubdirectoryPath subdir = Ok "2025/01").
  { exists "2025/01". reflexivity. }
  split; [exact Hwd|]. split; [exact Hname|]. split; [exact Hsub|].
  exact (validateSubdirectoryPath_descendant (Some "/home/xferd")
           "/data/invoices" (Some "2025/01") "a.txt" "a.txt"
           "/data/invoices/2025/01/a.txt" Hwd Hname Hsub).
Defined.

(** The example resolves, and a root that is the separator alone
    rejects every target: no path begins with two separators. *)
Example validateSubdirectoryPath_example :
  validateSubdirectoryPath (Some "/home/xferd") "/data/invoices"
    (targetRelPath (Some "2025/01") "a.txt")
  = Ok "/data/invoices/2025/01/a.txt" /\
  validateSubdirectoryPath (Some "/home/xferd") "/" "a.txt"
  = Err "path escapes base directory".
Proof. split; reflexivity. Qed.

End Containment.

(* ===================================================================== *)
(** * The multipart handler and its scratch file *)
(* ===================================================================== *)

Section Handler.
Import Ingress.

(** Once [os.Create] has succeeded, a failure of [streamToFile] leaves
    the file it was writing. *)
Lemma streamToFile_failure_keeps_file (os : OsFaults) (fs fs' : Shadow.FS)
    (src destPath msg : string) :
  createFails os = false ->
  streamToFile os fs src destPath = (fs', Some msg) ->
  is_Some (fs' !! destPath).
Proof.
  unfold streamToFile. intros -> H.
  destruct (copyFailsAfter os) as [n|].
  - inversion H. rewrite lookup_insert_eq. by eexists.
  - destruct (syncFails os); [|done].
    inversion H. rewrite lookup_insert_eq. by eexists.
Qed.

(** With a failing copy or sync, [streamToFile] fails. *)
Lemma streamToFile_fails (os : OsFaults) (fs : Shadow.FS) (src destPath : string) :
  copyFailsAfter os <> None \/ syncFails os = true ->
  exists fs' msg, streamToFile os fs src destPath = (fs', Some msg).
Proof.
  unfold streamToFile. intros H.
  destruct (createFails os); [by eexists _, _|].
  destruct (copyFailsAfter os); [by eexists _, _|].
  destruct H as [H | ->]; [done | by eexists _, _].
Qed.

(** Whenever the copy or the sync fails and the handler answers 500, the
    scratch file of the request is still there. *)
Lemma handleUpload_write_failure (s : Server) (os : OsFaults)
    (fs fs' : Shadow.FS) (r : Request) (resp : Response) :
  mkdirAllFails os = false -> createFails os = false ->
  copyFailsAfter os <> None \/ syncFails os = true ->
  handleUpload s os fs r = (fs', resp) ->
  status resp = StatusInternalServerError ->
  exists filename content safeFilename,
    form r = FormFile filename content /\
    sanitizeFilename filename = Ok safeFilename /\
    is_Some (fs' !! tempPathOf s safeFilename).
Proof.
  intros Hmk Hcr Hfault. unfold handleUpload, respond. rewrite Hmk.
  repeat match goal with
         | |- context [if ?c then _ else _] => destruct c eqn:?
         | |- context [match ?x with _ => _ end] => destruct x eqn:?
         end;
    intros H; inversion H; subst; clear H; intros Hst;
    try (vm_compute in Hst; discriminate).
  all: try (match goal with
            | E : streamToFile _ _ ?c ?p = (_, None) |- _ =>
                destruct (streamToFile_fails os fs c p Hfault) as (? & ? & E');
                rewrite E' in E; discriminate
            end).
  all: eexists _, _, _; split; [done|]; split; [done|];
    eapply streamToFile_failure_keeps_file; eauto.
Qed.

(** The failure of the rename is the one that removes the scratch
    file. *)
Lemma handleUpload_rename_failure_cleans :
  handleUpload server rename_error ∅ upload_a_txt
  = (∅, {| status := StatusInternalServerError;
           body := "Failed to finalize file" |}).
Proof. vm_compute. reflexivity. Qed.

(** C5, on the code.  When the disk takes two of the five bytes of an
    upload, and likewise when the sync fails, the handler answers 500
    and the scratch file [temp_dir/a.txt.partial] stays in the temp
    directory. *)
Theorem handleUpload_write_failure_leaves_partial :
  tempPathOf server "a.txt" = "/var/tmp/xferd/a.txt.partial" /\
  (let run := handleUpload server disk_full ∅ upload_a_txt in
   status run.2 = StatusInternalServerError /\
   run.1 !! "/var/tmp/xferd/a.txt.partial" = Some "he") /\
  (let run := handleUpload server sync_error ∅ upload_a_txt in
   status run.2 = StatusInternalServerError /\
   run.1 !! "/var/tmp/xferd/a.txt.partial" = Some "hello").
Proof. vm_compute. repeat split; reflexivity. Qed.

End Handler.

(* ===================================================================== *)
(** * Path patterns and the ignore rule *)
(* ===================================================================== *)

#[local] Set Warnings "-clear-no-such-hyp".

Section PathPatterns.
Import GoStrings Watcher.

#[local] Arguments Ascii.eqb : simpl never.

Variable Match : string -> string -> bool * bool.

Lemma match_from_right_app (patternParts pathParts more : list string) :
  match_from_right Match patternParts pathParts = true ->
  match_from_right Match patternParts (pathParts ++ more) = true.
Proof.
  revert pathParts. induction patternParts as [|part ps IH];
    intros [|pathPart qs]; simpl; try done.
  destruct (Match part pathPart) as [[] []]; try done. apply IH.
Qed.

Lemma TrimPrefix_relative (s : string) :
  HasPrefix s "/" = false -> TrimPrefix s "/" = s.
Proof. unfold TrimPrefix. by intros ->. Qed.

Lemma TrimPrefix_under (dir rest : string) :
  HasPrefix rest "/" = false ->
  TrimPrefix (dir +:+ "/" +:+ rest) "/" = rest \/
  exists d, TrimPrefix (dir +:+ "/" +:+ rest) "/" = d +:+ String "/"%char rest.
Proof.
  intros Hrel. destruct dir as [|c dir].
  - left. unfold TrimPrefix.
    change ("" +:+ "/" +:+ rest) with (String "/"%char rest).
    by rewrite HasPrefix_sep, Ascii.eqb_refl.
  - right. unfold TrimPrefix. rewrite app_cons_s, HasPrefix_sep.
    destruct (Ascii.eqb "/" c).
    + by exists dir.
    + by exists (String c dir).
Qed.

(** X1.  Path patterns are matched from the right: a pattern that matches a
    relative path matches it below every directory as well. *)
Theorem matchesPathPattern_below (pattern rest dir : string) :
  HasPrefix rest "/" = false ->
  matchesPathPattern Match pattern rest = true ->
  matchesPathPattern Match pattern (dir +:+ "/" +:+ rest) = true.
Proof.
  unfold matchesPathPattern, Filepath.ToSlash. intros Hrel.
  rewrite (TrimPrefix_relative rest Hrel).
  destruct (TrimPrefix_under dir rest Hrel) as [-> | [d ->]]; [done|].
  rewrite Split_app_sep, length_app, rev_app_distr.
  set (pp := Split (TrimPrefix pattern "/") "/").
  destruct (length (Split rest "/") <? length pp)%nat eqn:Hlen; [done|].
  intros Hm. apply Nat.ltb_ge in Hlen.
  destruct (_ <? _)%nat eqn:Hlen'; [apply Nat.ltb_lt in Hlen'; lia|].
  by apply match_from_right_app.
Qed.

Lemma legacy_suffix_iff (base : string) :
  starts_with_dot base = false ->
  existsb (suffix_test base) IgnoredSuffixes = true <->
  exists suffix, suffix ∈ IgnoredSuffixes /\ ends_with base suffix.
Proof.
  intros Hdot. split.
  - intros (suffix & Hin & Ht)%existsb_exists.
    exists suffix. split; [by apply list_elem_of_In|].
    by apply ends_with_of_suffix_test.
  - intros (suffix & Hin & pre & Hbase).
    assert (Hpre : pre <> "").
    { intros ->. rewrite app_nil_l_s in Hbase. rewrite Hbase in Hdot.
      by rewrite (legacy_suffix_dot _ Hin) in Hdot. }
    apply existsb_exists. exists suffix. split.
    + by apply list_elem_of_In.
    + by eapply suffix_test_of_ends_with.
Qed.

(** X2.  A file is ignored exactly when its basename is hidden, or one of the
    configured patterns hits (a pattern with a separator as a path
    pattern on the whole path, any other by [filepath.Match] on the
    basename, an erring match counting as no match), or the basename ends
    with a legacy suffix.  [ShouldIgnoreLegacy] is the rule without the
    patterns. *)
Theorem ShouldIgnore_exactly (path : string) (ignorePatterns : list string) :
  let base := Filepath.Base path in
  let legacy := exists suffix, suffix ∈ IgnoredSuffixes /\
                               ends_with base suffix in
  (ShouldIgnore Match path ignorePatterns = true <->
   starts_with_dot base = true \/
   (exists pattern,
       pattern ∈ ignorePatterns /\
       if Contains pattern "/" || Contains pattern "\"
       then matchesPathPattern Match pattern path = true
       else Match pattern base = (true, false)) \/
   legacy) /\
  (ShouldIgnoreLegacy Match path = true <->
   starts_with_dot base = true \/ legacy).
Proof.
  cbn zeta. unfold ShouldIgnoreLegacy, ShouldIgnore. cbn [existsb].
  destruct (starts_with_dot (Filepath.Base path)) eqn:Hdot;
    [by split; split; auto|].
  pose proof (legacy_suffix_iff _ Hdot) as Hleg.
  split.
  - destruct (existsb (pattern_hits _ _ _) ignorePatterns) eqn:Hex.
    + split; [|done]. intros _. right. left.
      apply existsb_exists in Hex as (pattern & Hin & Hhit).
      exists pattern. split; [by apply list_elem_of_In|].
      unfold pattern_hits in Hhit.
      destruct (_ || _); [done|].
      by destruct (Match pattern (Filepath.Base path)) as [[] []].
    + destruct (existsb (suffix_test _) IgnoredSuffixes) eqn:Hs.
      * split; [|done]. intros _. right. right. by apply Hleg.
      * split; [done|]. intros [? | [(pattern & Hin & Hhit) | Hl]]; [done | |].
        -- assert (existsb (pattern_hits Match path (Filepath.Base path))
                     ignorePatterns = true) as Ht; [|by rewrite Ht in Hex].
           apply existsb_exists. exists pattern.
           split; [by apply list_elem_of_In|]. unfold pattern_hits.
           destruct (_ || _); [done|]. by rewrite Hhit.
        -- apply Hleg in Hl. discriminate.
  - destruct (existsb (suffix_test _) IgnoredSuffixes) eqn:Hs.
    + split; [|done]. intros _. right. by apply Hleg.
    + split; [done|]. intros [? | Hl]; [done|]. apply Hleg in Hl.
      discriminate.
Qed.

End PathPatterns.

Section PathPatternExamples.
Import GoStrings Watcher.

Lemma matchesPathPattern_below_witness :
  HasPrefix "cache/x.txt" "/" = false /\
  matchesPathPattern literal_match "cache/x.txt" "cache/x.txt" = true /\
  matchesPathPattern literal_match "cache/x.txt"
    ("/data/in" +:+ "/" +:+ "cache/x.txt") = true.
Proof.
  assert (H1 : HasPrefix "cache/x.txt" "/" = false) by reflexivity.
  assert (H2 : matchesPathPattern literal_match "cache/x.txt" "cache/x.txt"
               = true) by reflexivity.
  split; [exact H1|]. split; [exact H2|].
  exact (matchesPathPattern_below literal_match "cache/x.txt" "cache/x.txt"
           "/data/in" H1 H2).
Defined.

End PathPatternExamples.

(* ===================================================================== *)
(** * [processFile], the scan and the events of the watcher *)
(* ===================================================================== *)

Section ProcessFile.
Import Watcher.

Variable Match : string -> string -> bool * bool.


(** The prober answers within [enough_fuel], and its answer is one of
    the three outcomes. *)
Lemma isStable_answers (w : World) (cfg : Config.StabilityConfig) :
  valid_policy cfg ->
  sleeps w (Config.GetConfirmationInterval cfg) ->
  exists r,
    isStable w cfg (enough_fuel cfg) = Some r /\
    outcome w (Config.GetMaxWait cfg)
      (matches_needed (Config.RequiredStableChecks cfg)) r.
Proof.
  intros (Hint & Hreq & Hmax) Hsl.
  destruct (isStable_loop_returns w (Config.GetMaxWait cfg)
              (Config.RequiredStableChecks cfg)
              (Config.GetConfirmationInterval cfg) Hsl
              (Nat.pred (enough_fuel cfg)) O 0 0 0) as [r Hr].
  { pose proof (enough_fuel_outlasts cfg Hint). destruct Hsl as [H0 _]. lia. }
  exists r. split; [exact Hr|].
  eapply isStable_loop_sound; [|exact Hr]. split.
  - split; intros; lia.
  - by left.
Qed.


(** An event with a path is the one built at the end of [processFile]. *)
Lemma processFile_path (fuel : nat) (path : string) (isRename : bool)
    (cfg : Config.DirectoryConfig) (os : FileOs) (event : FileEvent)
    (err : option string) :
  processFile Match fuel path isRename cfg os = Some (event, err) ->
  Path event <> "" ->
  Path event = path /\ IsRename event = isRename /\
  ShouldIgnore Match path (Config.Ignore cfg) = false.
Proof.
  unfold processFile.
  destruct (ShouldIgnore _ _ _); [intros H; by inversion H|].
  destruct (fileStat os) as [info|]; [|intros H; by inversion H].
  destruct (IsRegular info); [|intros H; by inversion H].
  cbn [negb]. destruct isRename.
  - intros H _. by inversion H.
  - destruct (isStable _ _ _) as [[[] timedOut]|]; [| |done];
      intros H Hp; inversion H; subst; done.
Qed.

(** X3.  An event that [processFile] returns with a path belongs to a regular
    file that is not ignored; it carries the path and the rename flag it
    was called with, comes without an error, and is never flagged as
    processed on timeout when it stems from a rename. *)
Theorem processFile_event (fuel : nat) (path : string) (isRename : bool)
    (cfg : Config.DirectoryConfig) (os : FileOs) (event : FileEvent)
    (err : option string) :
  processFile Match fuel path isRename cfg os = Some (event, err) ->
  Path event <> "" ->
  err = None /\
  Path event = path /\ IsRename event = isRename /\
  Timestamp event = clock os /\
  ShouldIgnore Match path (Config.Ignore cfg) = false /\
  (exists info, fileStat os = Some info /\ IsRegular info = true) /\
  (isRename = true -> ProcessedDueToTimeout event = false).
Proof.
  unfold processFile.
  destruct (ShouldIgnore _ _ _); [intros H; by inversion H|].
  destruct (fileStat os) as [info|]; [|intros H; by inversion H].
  destruct (IsRegular info) eqn:Hreg; [|intros H; by inversion H].
  cbn [negb]. destruct isRename.
  - intros H Hp. inversion H; subst. repeat split; try done. by exists info.
  - destruct (isStable _ _ _) as [[[] timedOut]|]; [| |done];
      intros H Hp; inversion H; subst; [|done].
    repeat split; try done. by exists info.
Qed.

(** A rename is handed on without probing: whatever the prober would
    see, and with no fuel at all. *)
Lemma processFile_rename (fuel : nat) (path : string)
    (cfg : Config.DirectoryConfig) (os : FileOs) (info : FileInfo) :
  ShouldIgnore Match path (Config.Ignore cfg) = false ->
  fileStat os = Some info -> IsRegular info = true ->
  processFile Match fuel path true cfg os =
  Some ({| Path := path; IsRename := true; Timestamp := clock os;
           ProcessedDueToTimeout := false |}, None).
Proof. unfold processFile. by intros -> -> ->. Qed.


End ProcessFile.

Section ProcessFileExamples.
Import Watcher.


Lemma processFile_event_witness :
  processFile literal_match 0 "/data/in/a.txt" true (config quiet_watcher)
    settled_file
  = Some ({| Path := "/data/in/a.txt"; IsRename := true; Timestamp := 42;
             ProcessedDueToTimeout := false |}, None) /\
  "/data/in/a.txt" <> "" /\
  (@None string = None /\
   "/data/in/a.txt" = "/data/in/a.txt" /\ true = true /\
   42 = clock settled_file /\
   ShouldIgnore literal_match "/data/in/a.txt"
     (Config.Ignore (config quiet_watcher)) = false /\
   (exists info, fileStat settled_file = Some info /\ IsRegular info = true) /\
   (true = true -> false = false)).
Proof.
  assert (H1 : processFile literal_match 0 "/data/in/a.txt" true
                 (config quiet_watcher) settled_file
               = Some ({| Path := "/data/in/a.txt"; IsRename := true;
                          Timestamp := 42;
                          ProcessedDueToTimeout := false |}, None))
    by reflexivity.
  assert (H2 : "/data/in/a.txt" <> "") by discriminate.
  split; [exact H1|]. split; [exact H2|].
  exact (processFile_event literal_match 0 "/data/in/a.txt" true
           (config quiet_watcher) settled_file _ _ H1 H2).
Defined.


End ProcessFileExamples.

Section WatcherState.
Import Watcher.

Variable Match : string -> string -> bool * bool.

Lemma processFile_returns (path : string) (cfg : Config.DirectoryConfig)
    (os : FileOs) :
  valid_policy (Config.Stability cfg) ->
  sleeps (probe os) (Config.GetConfirmationInterval (Config.Stability cfg)) ->
  exists res,
    processFile Match (enough_fuel (Config.Stability cfg)) path false cfg os
    = Some res.
Proof.
  intros Hvalid Hsl. unfold processFile.
  destruct (ShouldIgnore _ _ _); [by eexists|].
  destruct (fileStat os) as [info|]; [|by eexists].
  destruct (IsRegular info); [|by eexists]. cbn [negb].
  destruct (isStable_answers _ _ Hvalid Hsl) as ([[] t] & -> & _);
    by eexists.
Qed.

Lemma mark_round_trip (path : string) (P : gset string) :
  path ∉ P -> ({[path]} ∪ P) ∖ {[path]} = P.
Proof. set_solver. Qed.

(** The outcome of a hand-over, as the scan, the event handler and the
    probe task all end: when an event is delivered the path is marked
    enqueued unless the handler failed. *)
Lemma deliver_enqueued (w : LinuxWatcher) (path : string) (fails : bool) :
  config (deliver w path fails) = config w /\
  processingFiles (deliver w path fails) = processingFiles w /\
  enqueuedFiles (deliver w path fails)
  = if fails then enqueuedFiles w ∖ {[path]} else {[path]} ∪ enqueuedFiles w.
Proof.
  unfold deliver. destruct fails; simpl; repeat split. set_solver.
Qed.

(** One visit of the reconciliation scan.  Under a valid policy the
    callback returns; it leaves [processingFiles] as it found it; it hands
    over at most one event, and only for a regular file that is not
    ignored and not in flight; the path is marked enqueued exactly when
    the handler accepted the event. *)
Lemma reconcileVisit_step (w : LinuxWatcher) (path : string)
    (info : FileInfo) (walkErr : bool) (os : VisitOs) :
  valid_policy (Config.Stability (config w)) ->
  sleeps (scanProbe os)
    (Config.GetConfirmationInterval (Config.Stability (config w))) ->
  sleeps (probe (fileOs os))
    (Config.GetConfirmationInterval (Config.Stability (config w))) ->
  exists w' evs,
    reconcileVisit Match (enough_fuel (Config.Stability (config w)))
      w path info walkErr os = Some (w', evs) /\
    config w' = config w /\
    processingFiles w' = processingFiles w /\
    ((evs = [] /\ enqueuedFiles w' = enqueuedFiles w) \/
     (exists event,
         evs = [event] /\ Path event = path /\ IsRename event = false /\
         walkErr = false /\ IsRegular info = true /\
         ShouldIgnore Match path (Config.Ignore (config w)) = false /\
         (path ∉ enqueuedFiles w) /\ (path ∉ processingFiles w) /\
         enqueuedFiles w'
         = if handlerFails os then enqueuedFiles w
           else {[path]} ∪ enqueuedFiles w)).
Proof.
  intros Hvalid Hsl1 Hsl2. unfold reconcileVisit, scan_visit.
  destruct walkErr; [by eexists _, _; repeat split; auto|].
  destruct (IsRegular info) eqn:Hreg; cbn [negb];
    [|by eexists _, _; repeat split; auto].
  destruct (ShouldIgnore _ _ _) eqn:Hign;
    [by eexists _, _; repeat split; auto|].
  destruct (bool_decide (path ∈ enqueuedFiles w)) eqn:Henq;
    [by eexists _, _; repeat split; auto|].
  destruct (bool_decide (path ∈ processingFiles w)) eqn:Hproc;
    [by eexists _, _; repeat split; auto|].
  apply bool_decide_eq_false in Henq, Hproc.
  cbn [config].
  destruct (isStable_answers _ _ Hvalid Hsl1) as ([stable t] & -> & _).
  assert (Hback : forall E,
    processingFiles
      (delete_processing
         {| config := config w;
            processingFiles := {[path]} ∪ processingFiles w;
            enqueuedFiles := E |} path) = processingFiles w).
  { intros E. simpl. by apply mark_round_trip. }
  destruct stable.
  2:{ eexists _, _. split; [done|]. split; [done|]. split; [apply Hback|].
      by left. }
  destruct (processFile_returns path (config w) (fileOs os) Hvalid Hsl2)
    as ([event err] & Hpf).
  rewrite Hpf. destruct err as [e|].
  { eexists _, _. split; [done|]. split; [done|]. split; [apply Hback|].
    by left. }
  destruct (String.eqb (Path event) "") eqn:Hpath.
  { eexists _, _. split; [done|]. split; [done|]. split; [apply Hback|].
    by left. }
  apply String.eqb_neq in Hpath.
  destruct (processFile_path Match _ _ _ _ _ _ _ Hpf Hpath)
    as (Hp & Hr & _).
  eexists _, _. split; [done|].
  unfold deliver. destruct (handlerFails os); simpl.
  - split; [done|]. split; [by apply mark_round_trip|]. right.
    exists event. repeat split; try done. set_solver.
  - split; [done|]. split; [by apply mark_round_trip|]. right.
    exists event. repeat split; done.
Qed.

(** X5.  A whole reconciliation scan.  It returns, leaves [processingFiles]
    as it was and never takes a path out of [enqueuedFiles]; every event
    it hands over belongs to a regular entry of the walk that is not
    ignored and was not in flight when the scan began; and a path is newly
    marked enqueued only if an event for it was handed over. *)
Theorem performReconciliationScan_marks (entries : list WalkEntry) :
  forall w,
    valid_policy (Config.Stability (config w)) ->
    Forall (fun e =>
      sleeps (scanProbe (entryOs e))
        (Config.GetConfirmationInterval (Config.Stability (config w))) /\
      sleeps (probe (fileOs (entryOs e)))
        (Config.GetConfirmationInterval (Config.Stability (config w))))
      entries ->
    exists w' evs,
      performReconciliationScan Match
        (enough_fuel (Config.Stability (config w))) w entries
      = Some (w', evs) /\
      config w' = config w /\
      processingFiles w' = processingFiles w /\
      (enqueuedFiles w ⊆ enqueuedFiles w') /\
      (forall event, event ∈ evs ->
         exists e, e ∈ entries /\ Path event = entryPath e /\
                   entryErr e = false /\ IsRegular (entryInfo e) = true /\
                   ShouldIgnore Match (Path event) (Config.Ignore (config w))
                   = false /\
                   (Path event ∉ enqueuedFiles w) /\
                   (Path event ∉ processingFiles w)) /\
      (forall p, p ∈ enqueuedFiles w' ->
         p ∈ enqueuedFiles w \/ exists event, event ∈ evs /\ Path event = p).
Proof.
  induction entries as [|e entries IH]; intros w Hvalid Hall.
  { exists w, []. split; [done|]. split; [done|]. split; [done|].
    split; [done|]. split; [by intros ev ?%elem_of_nil | by left]. }
  apply Forall_cons in Hall as [[Hs1 Hs2] Hall].
  destruct (reconcileVisit_step w (entryPath e) (entryInfo e) (entryErr e)
              (entryOs e) Hvalid Hs1 Hs2)
    as (w1 & evs1 & Hvisit & Hcfg & Hproc & Hcase).
  cbn [performReconciliationScan]. rewrite Hvisit.
  rewrite <- Hcfg in Hvalid, Hall.
  destruct (IH w1 Hvalid Hall)
    as (w2 & evs2 & Hscan & Hcfg2 & Hproc2 & Hsub2 & Hevs2 & Henq2).
  rewrite Hcfg in Hscan. rewrite Hscan.
  exists w2, (evs1 ++ evs2). split; [done|].
  split; [congruence|]. split; [congruence|].
  assert (Hsub1 : enqueuedFiles w ⊆ enqueuedFiles w1).
  { destruct Hcase as [[_ ->] | (ev & _ & _ & _ & _ & _ & _ & _ & _ & ->)];
      [done|]. destruct (handlerFails (entryOs e)); set_solver. }
  split; [set_solver|]. split.
  - intros ev [Hin | Hin]%elem_of_app.
    + destruct Hcase as [[-> _] | (ev1 & -> & Hp & _ & He & Hr & Hi & Hn1 & Hn2 & _)];
        [by apply elem_of_nil in Hin|].
      apply list_elem_of_singleton in Hin as ->.
      exists e. rewrite Hp. repeat split; try done. apply list_elem_of_here.
    + destruct (Hevs2 ev Hin) as (e' & He' & Hp & Herr & Hreg & Hi & Hn1 & Hn2).
      exists e'. rewrite Hcfg in Hi. rewrite Hproc in Hn2.
      repeat split; try done; [by apply list_elem_of_further | set_solver].
  - intros p Hp. destruct (Henq2 p Hp) as [Hp1 | (ev & Hin & Hev)].
    + destruct Hcase as [[_ Heq] | (ev1 & -> & Hp' & _ & _ & _ & _ & _ & _ & Heq)].
      * left. by rewrite <- Heq.
      * rewrite Heq in Hp1. destruct (handlerFails (entryOs e)); [by left|].
        apply elem_of_union in Hp1 as [Hp1%elem_of_singleton | Hp1];
          [|by left].
        right. exists ev1. split; [|congruence].
        apply elem_of_app. left. apply list_elem_of_here.
    + right. exists ev. split; [|done]. apply elem_of_app. by right.
Qed.

(** X6.  Two write notifications for a path that is not in flight start one
    probe: the first marks the path as being processed and starts the
    goroutine, the second changes nothing.  Neither hands anything to the
    handler. *)
Theorem write_events_start_one_probe (fuel : nat) (w : LinuxWatcher)
    (event : NotifyEvent) (os os' : EventOs) :
  has_op event OpWrite = true ->
  has_op event OpCreate = false -> has_op event OpRename = false ->
  Name event ∉ enqueuedFiles w -> Name event ∉ processingFiles w ->
  handleHybridEvent Match fuel w event os
  = Some (store_processing w (Name event), [], Some (Name event)) /\
  handleHybridEvent Match fuel (store_processing w (Name event)) event os'
  = Some (store_processing w (Name event), [], None).
Proof.
  intros Hw Hc Hr Henq Hproc. unfold handleHybridEvent.
  rewrite Hw, Hc, Hr. cbn [orb]. cbn [enqueuedFiles store_processing].
  rewrite !bool_decide_eq_false_2 by done.
  split; [done|]. cbn [processingFiles].
  rewrite bool_decide_eq_true_2 by set_solver. done.
Qed.

(** X7.  The probe goroutine started for a path always takes the processing
    mark away again; it hands over at most one event, for a file that is
    not ignored, and the path ends up marked enqueued exactly when the
    handler accepted the event. *)
Theorem probeTask_clears_mark (w : LinuxWatcher) (path : string)
    (os : FileOs) (fails : bool) :
  valid_policy (Config.Stability (config w)) ->
  sleeps (probe os)
    (Config.GetConfirmationInterval (Config.Stability (config w))) ->
  path ∉ processingFiles w ->
  exists w' evs,
    probeTask Match (enough_fuel (Config.Stability (config w)))
      (store_processing w path) path os fails = Some (w', evs) /\
    config w' = config w /\
    processingFiles w' = processingFiles w /\
    ((evs = [] /\ enqueuedFiles w' = enqueuedFiles w) \/
     (exists event,
         evs = [event] /\ Path event = path /\
         ShouldIgnore Match path (Config.Ignore (config w)) = false /\
         enqueuedFiles w'
         = if fails then enqueuedFiles w ∖ {[path]}
           else {[path]} ∪ enqueuedFiles w)).
Proof.
  intros Hvalid Hsl Hproc. unfold probeTask. cbn [config store_processing].
  destruct (processFile_returns path (config w) os Hvalid Hsl)
    as ([event err] & Hpf).
  rewrite Hpf.
  assert (Hback : forall E,
    processingFiles
      (delete_processing
         {| config := config w;
            processingFiles := {[path]} ∪ processingFiles w;
            enqueuedFiles := E |} path) = processingFiles w).
  { intros E. simpl. by apply mark_round_trip. }
  destruct err as [e|].
  { eexists _, _. split; [done|]. split; [done|]. split; [apply Hback|].
    by left. }
  destruct (String.eqb (Path event) "") eqn:Hpath.
  { eexists _, _. split; [done|]. split; [done|]. split; [apply Hback|].
    by left. }
  apply String.eqb_neq in Hpath.
  destruct (processFile_path Match _ _ _ _ _ _ _ Hpf Hpath)
    as (Hp & _ & Hi).
  eexists _, _. split; [done|].
  unfold deliver. destruct fails; simpl.
  - split; [done|]. split; [by apply mark_round_trip|]. right.
    exists event. repeat split; try done. set_solver.
  - split; [done|]. split; [by apply mark_round_trip|]. right.
    exists event. repeat split; done.
Qed.

(** X8.  A rename notification for a regular, not ignored file is handed over
    at once, marked as a rename and not as processed on timeout, and the
    path is marked enqueued.  While the mark stands every further
    notification for the path is dropped; [ClearEnqueued] brings the
    watcher back to the state in which the path is handled again. *)
Theorem rename_event_life_cycle (fuel : nat) (w : LinuxWatcher)
    (event : NotifyEvent) (os : EventOs) (info info' : FileInfo) :
  has_op event OpRename = true -> has_op event OpWrite = false ->
  Name event ∉ enqueuedFiles w ->
  eventStat os = Some info -> IsRegular info = true ->
  ShouldIgnore Match (Name event) (Config.Ignore (config w)) = false ->
  fileStat (eventFileOs os) = Some info' -> IsRegular info' = true ->
  eventHandlerFails os = false ->
  let w1 := store_enqueued w (Name event) in
  handleHybridEvent Match fuel w event os
  = Some (w1,
          [ {| Path := Name event; IsRename := true;
               Timestamp := clock (eventFileOs os);
               ProcessedDueToTimeout := false |} ],
          None) /\
  (forall fuel' event' os',
      Name event' = Name event ->
      handleHybridEvent Match fuel' w1 event' os' = Some (w1, [], None)) /\
  ClearEnqueued w1 (Name event) = w.
Proof.
  intros Hr Hw Henq Hst Hreg Hign Hst' Hreg' Hh w1. split; [|split].
  - unfold handleHybridEvent.
    rewrite bool_decide_eq_false_2 by done.
    rewrite Hr, Hw, Hst, Hreg. cbn [orb negb].
    rewrite (processFile_rename Match fuel _ _ _ info' Hign Hst' Hreg').
    cbn [Path].
    destruct (String.eqb (Name event) "") eqn:He.
    + apply String.eqb_eq in He. rewrite He in Hign.
      by vm_compute in Hign.
    + unfold deliver. by rewrite Hh.
  - intros fuel' event' os' Hn. unfold handleHybridEvent. rewrite Hn.
    rewrite bool_decide_eq_true_2; [done|]. subst w1. simpl. set_solver.
  - subst w1. unfold ClearEnqueued, delete_enqueued, store_enqueued.
    destruct w as [c P E]. simpl in *. f_equal. by apply mark_round_trip.
Qed.

End WatcherState.

Section WatcherStateExamples.
Import Watcher.

Lemma performReconciliationScan_marks_witness :
  valid_policy (Config.Stability (config quiet_watcher)) /\
  Forall (fun e =>
    sleeps (scanProbe (entryOs e))
      (Config.GetConfirmationInterval
         (Config.Stability (config quiet_watcher))) /\
    sleeps (probe (fileOs (entryOs e)))
      (Config.GetConfirmationInterval
         (Config.Stability (config quiet_watcher))))
    [a_txt_entry] /\
  exists w' evs,
    performReconciliationScan literal_match
      (enough_fuel (Config.Stability (config quiet_watcher)))
      quiet_watcher [a_txt_entry]
    = Some (w', evs) /\
    config w' = config quiet_watcher /\
    processingFiles w' = processingFiles quiet_watcher /\
    (enqueuedFiles quiet_watcher ⊆ enqueuedFiles w') /\
    (forall event, event ∈ evs ->
       exists e, e ∈ [a_txt_entry] /\ Path event = entryPath e /\
                 entryErr e = false /\ IsRegular (entryInfo e) = true /\
                 ShouldIgnore literal_match (Path event)
                   (Config.Ignore (config quiet_watcher)) = false /\
                 (Path event ∉ enqueuedFiles quiet_watcher) /\
                 (Path event ∉ processingFiles quiet_watcher)) /\
    (forall p, p ∈ enqueuedFiles w' ->
       p ∈ enqueuedFiles quiet_watcher \/
       exists event, event ∈ evs /\ Path event = p).
Proof.
  assert (H : Forall (fun e =>
    sleeps (scanProbe (entryOs e))
      (Config.GetConfirmationInterval
         (Config.Stability (config quiet_watcher))) /\
    sleeps (probe (fileOs (entryOs e)))
      (Config.GetConfirmationInterval
         (Config.Stability (config quiet_watcher))))
    [a_txt_entry]).
  { constructor; [|constructor]. split; exact steady_world_sleeps. }
  split; [exact three_checks_valid|]. split; [exact H|].
  exact (performReconciliationScan_marks literal_match [a_txt_entry]
           quiet_watcher three_checks_valid H).
Defined.

Lemma write_events_start_one_probe_witness :
  has_op write_a_txt OpWrite = true /\
  has_op write_a_txt OpCreate = false /\
  has_op write_a_txt OpRename = false /\
  (Name write_a_txt ∉ enqueuedFiles quiet_watcher) /\
  (Name write_a_txt ∉ processingFiles quiet_watcher) /\
  handleHybridEvent literal_match 0 quiet_watcher write_a_txt calm_event
  = Some (store_processing quiet_watcher (Name write_a_txt), [],
          Some (Name write_a_txt)) /\
  handleHybridEvent literal_match 0
    (store_processing quiet_watcher (Name write_a_txt)) write_a_txt calm_event
  = Some (store_processing quiet_watcher (Name write_a_txt), [], None).
Proof.
  assert (H1 : has_op write_a_txt OpWrite = true) by reflexivity.
  assert (H2 : has_op write_a_txt OpCreate = false) by reflexivity.
  assert (H3 : has_op write_a_txt OpRename = false) by reflexivity.
  assert (H4 : Name write_a_txt ∉ enqueuedFiles quiet_watcher)
    by apply not_elem_of_empty.
  assert (H5 : Name write_a_txt ∉ processingFiles quiet_watcher)
    by apply not_elem_of_empty.
  split; [exact H1|]. split; [exact H2|]. split; [exact H3|].
  split; [exact H4|]. split; [exact H5|].
  exact (write_events_start_one_probe literal_match 0 quiet_watcher
           write_a_txt calm_event calm_event H1 H2 H3 H4 H5).
Defined.

Lemma probeTask_clears_mark_witness :
  valid_policy (Config.Stability (config quiet_watcher)) /\
  sleeps (probe settled_file)
    (Config.GetConfirmationInterval
       (Config.Stability (config quiet_watcher))) /\
  ("/data/in/a.txt" ∉ processingFiles quiet_watcher) /\
  exists w' evs,
    probeTask literal_match
      (enough_fuel (Config.Stability (config quiet_watcher)))
      (store_processing quiet_watcher "/data/in/a.txt") "/data/in/a.txt"
      settled_file false = Some (w', evs) /\
    config w' = config quiet_watcher /\
    processingFiles w' = processingFiles quiet_watcher /\
    ((evs = [] /\ enqueuedFiles w' = enqueuedFiles quiet_watcher) \/
     (exists event,
         evs = [event] /\ Path event = "/data/in/a.txt" /\
         ShouldIgnore literal_match "/data/in/a.txt"
           (Config.Ignore (config quiet_watcher)) = false /\
         enqueuedFiles w'
         = if false then enqueuedFiles quiet_watcher ∖ {["/data/in/a.txt"]}
           else {["/data/in/a.txt"]} ∪ enqueuedFiles quiet_watcher)).
Proof.
  assert (H : "/data/in/a.txt" ∉ processingFiles quiet_watcher)
    by apply not_elem_of_empty.
  split; [exact three_checks_valid|]. split; [exact steady_world_sleeps|].
  split; [exact H|].
  exact (probeTask_clears_mark literal_match quiet_watcher "/data/in/a.txt"
           settled_file false three_checks_valid steady_world_sleeps H).
Defined.

Lemma rename_event_life_cycle_witness :
  has_op rename_a_txt OpRename = true /\
  has_op rename_a_txt OpWrite = false /\
  (Name rename_a_txt ∉ enqueuedFiles quiet_watcher) /\
  eventStat calm_event = Some a_txt_info /\
  IsRegular a_txt_info = true /\
  ShouldIgnore literal_match (Name rename_a_txt)
    (Config.Ignore (config quiet_watcher)) = false /\
  fileStat (eventFileOs calm_event) = Some a_txt_info /\
  eventHandlerFails calm_event = false /\
  handleHybridEvent literal_match 0 quiet_watcher rename_a_txt calm_event
  = Some (store_enqueued quiet_watcher (Name rename_a_txt),
          [ {| Path := Name rename_a_txt; IsRename := true;
               Timestamp := clock (eventFileOs calm_event);
               ProcessedDueToTimeout := false |} ],
          None) /\
  (forall fuel' event' os',
      Name event' = Name rename_a_txt ->
      handleHybridEvent literal_match fuel'
        (store_enqueued quiet_watcher (Name rename_a_txt)) event' os'
      = Some (store_enqueued quiet_watcher (Name rename_a_txt), [], None)) /\
  ClearEnqueued (store_enqueued quiet_watcher (Name rename_a_txt))
    (Name rename_a_txt) = quiet_watcher.
Proof.
  assert (H1 : has_op rename_a_txt OpRename = true) by reflexivity.
  assert (H2 : has_op rename_a_txt OpWrite = false) by reflexivity.
  assert (H3 : Name rename_a_txt ∉ enqueuedFiles quiet_watcher)
    by apply not_elem_of_empty.
  assert (H4 : eventStat calm_event = Some a_txt_info) by reflexivity.
  assert (H5 : IsRegular a_txt_info = true) by reflexivity.
  assert (H6 : ShouldIgnore literal_match (Name rename_a_txt)
                 (Config.Ignore (config quiet_watcher)) = false)
    by reflexivity.
  assert (H7 : fileStat (eventFileOs calm_event) = Some a_txt_info)
    by reflexivity.
  assert (H8 : eventHandlerFails calm_event = false) by reflexivity.
  split; [exact H1|]. split; [exact H2|]. split; [exact H3|].
  split; [exact H4|]. split; [exact H5|]. split; [exact H6|].
  split; [exact H7|]. split; [exact H8|].
  exact (rename_event_life_cycle literal_match 0 quiet_watcher rename_a_txt
           calm_event a_txt_info a_txt_info H1 H2 H3 H4 H5 H6 H7 H5 H8).
Defined.

End WatcherStateExamples.

(* ===================================================================== *)
(** * Shadow: the sweep and the frame of [Store] *)
(* ===================================================================== *)

Section ShadowSweep.
Import Shadow.





(** X10.  [Store] writes nowhere but at the shadow path: the files after a
    call are the files before it, or differ from them at that one path.
    A call that returns nil has stored the content of the source there. *)
Theorem Store_frame (m : Manager) (o : StoreOs) (t : Time) (fs : FS)
    (src : string) :
  let run := Store m o t fs src in
  (run.1 = fs \/
   exists v, run.1 = <[getShadowPath m src t := v]> fs) /\
  (Config.Enabled (config m) = false -> run = (fs, None)) /\
  (Config.Enabled (config m) = true -> run.2 = None ->
   run.1 !! getShadowPath m src t = fs !! src /\ is_Some (fs !! src)).
Proof.
  intros run. subst run. unfold Store, copyFile.
  destruct (Config.Enabled (config m)); cbn [negb].
  2:{ split; [by left|]. split; done. }
  split; [|split; [done|]].
  - destruct (mkdirAllFails o); [by left|].
    destruct (fs !! src) as [content|]; [|by left].
    destruct (createFails o); [by left|].
    destruct (copyFails o); [right; by eexists|].
    destruct (syncFails o); right; by eexists.
  - intros _. destruct (mkdirAllFails o); [done|].
    destruct (fs !! src) as [content|]; [|done].
    destruct (createFails o); [done|].
    destruct (copyFails o); [done|].
    destruct (syncFails o); [done|]. simpl. intros _.
    rewrite lookup_insert_eq. split; [done | by eexists].
Qed.

End ShadowSweep.

(* ===================================================================== *)
(** * Uploader: when an upload succeeds, what the queue holds, and the
      order of the worker's steps *)
(* ===================================================================== *)

Section RetrySuccess.
Import Uploader.

Variable net : Network.
Variable m : nat.

Lemma verdict_goes_on (r : DoResult) : verdict r = None <-> goes_on r.
Proof.
  unfold verdict, goes_on, is_2xx, is_4xx. destruct r as [[]|st body].
  - split; [done|]. intros [? | (? & ? & ? & _)]; done.
  - split; [by left | done].
  - split.
    + intros Hv. right. exists st, body. split; [done|]. revert Hv.
      destruct (Z.leb_spec 200 st), (Z.ltb_spec st 300),
               (Z.leb_spec 400 st), (Z.ltb_spec st 500);
        cbn [andb]; intros Hv; try done; lia.
    + intros [? | (st' & body' & Heq & H2 & H4)]; [done|].
      inversion Heq; subst.
      destruct (Z.leb_spec 200 st'), (Z.ltb_spec st' 300),
               (Z.leb_spec 400 st'), (Z.ltb_spec st' 500);
        cbn [andb]; try done; lia.
Qed.

Lemma verdict_success (r : DoResult) :
  verdict r = Some None <-> exists st body, r = DoResponse st body /\ is_2xx st.
Proof.
  unfold verdict, is_2xx. destruct r as [[]|st body].
  - split; [done|]. by intros (? & ? & ? & _).
  - split; [done|]. by intros (? & ? & ? & _).
  - split.
    + intros Hv. exists st, body. split; [done|]. revert Hv.
      destruct (Z.leb_spec 200 st), (Z.ltb_spec st 300),
               (Z.leb_spec 400 st), (Z.ltb_spec st 500);
        cbn [andb]; intros Hv; try done; lia.
    + intros (st' & body' & Heq & H2). inversion Heq; subst.
      destruct (Z.leb_spec 200 st'), (Z.ltb_spec st' 300);
        cbn [andb]; try done; lia.
Qed.

(** The loop returns nil exactly when some attempt within the turns left
    is answered by a success, every attempt before it let the loop go on,
    and no wait before these attempts was cut short by the context. *)
Lemma retry_loop_succeeds (left : nat) :
  forall attempt backoff lastErr,
    (retry_loop net m left attempt backoff lastErr).1 = None <->
    exists k, (attempt <= k < attempt + left)%nat /\
              verdict (do net k) = Some None /\
              (forall j, (attempt <= j < k)%nat -> verdict (do net j) = None) /\
              (forall j, (attempt <= j <= k)%nat -> (0 < j)%nat ->
                         ctxDone net j = false).
Proof.
  induction left as [|left IH]; intros attempt backoff lastErr.
  { simpl. split; [done|]. intros (k & ? & _). lia. }
  rewrite retry_loop_step.
  destruct (0 <? attempt)%nat eqn:Hpos; cbn [andb].
  - apply Nat.ltb_lt in Hpos.
    destruct (ctxDone net attempt) eqn:Hdone.
    { simpl. split; [done|]. intros (k & Hk & _ & _ & Hc).
      rewrite Hc in Hdone; [done | lia | lia]. }
    cbn zeta. destruct (verdict (do net attempt)) as [r|] eqn:Hv.
    + simpl. split.
      * intros ->. exists attempt. split; [lia|]. split; [done|].
        split; [intros; lia|]. intros j Hj _.
        by replace j with attempt by lia.
      * intros (k & Hk & Hvk & Hbefore & _).
        destruct (decide (k = attempt)) as [-> | Hne]; [congruence|].
        rewrite Hbefore in Hv; [done | lia].
    + specialize (IH (S attempt) (backoff * 2) (err_of (do net attempt))).
      destruct (retry_loop _ _ _ _ _ _) as [r evs]. simpl in *.
      rewrite IH. split.
      * intros (k & Hk & Hvk & Hbefore & Hc). exists k.
        split; [lia|]. split; [done|]. split.
        -- intros j Hj. destruct (decide (j = attempt)) as [-> | Hne];
             [done | apply Hbefore; lia].
        -- intros j Hj Hj0. destruct (decide (j = attempt)) as [-> | Hne];
             [done | apply Hc; lia].
      * intros (k & Hk & Hvk & Hbefore & Hc).
        destruct (decide (k = attempt)) as [-> | Hne]; [congruence|].
        exists k. split; [lia|]. split; [done|].
        split; intros; [apply Hbefore | apply Hc]; lia.
  - apply Nat.ltb_ge in Hpos. assert (attempt = O) as -> by lia.
    cbn zeta. destruct (verdict (do net 0)) as [r|] eqn:Hv.
    + simpl. split.
      * intros ->. exists O. split; [lia|]. split; [done|].
        split; intros; lia.
      * intros (k & Hk & Hvk & Hbefore & _).
        destruct (decide (k = O)) as [-> | Hne]; [congruence|].
        rewrite Hbefore in Hv; [done | lia].
    + specialize (IH 1%nat backoff (err_of (do net 0))).
      destruct (retry_loop _ _ _ _ _ _) as [r evs]. simpl in *.
      rewrite IH. split.
      * intros (k & Hk & Hvk & Hbefore & Hc). exists k.
        split; [lia|]. split; [done|]. split.
        -- intros j Hj. destruct (decide (j = O)) as [-> | Hne];
             [done | apply Hbefore; lia].
        -- intros j Hj Hj0. apply Hc; lia.
      * intros (k & Hk & Hvk & Hbefore & Hc).
        destruct (decide (k = O)) as [-> | Hne]; [congruence|].
        exists k. split; [lia|]. split; [done|].
        split; intros; [apply Hbefore | apply Hc]; lia.
Qed.

End RetrySuccess.

Section UploaderSequences.
Import Uploader.

(** X11.  [executeWithRetry] returns nil exactly when one of the four attempts
    gets a 2xx response, every attempt before it failed in a way that
    lets the loop go on (transport failure under a live context, or a
    response that is neither 2xx nor 4xx), and the context was not done
    during any of the waits before it. *)
Theorem executeWithRetry_succeeds_iff (net : Network) :
  (executeWithRetry net).1 = None <->
  exists k, (k <= 3)%nat /\
            (exists st body, do net k = DoResponse st body /\ is_2xx st) /\
            (forall j, (j < k)%nat ->
                       goes_on (do net j) /\ ctxDone net (S j) = false).
Proof.
  unfold executeWithRetry, maxRetries. rewrite retry_loop_succeeds. split.
  - intros (k & Hk & Hv & Hbefore & Hc). exists k. split; [lia|].
    split; [by apply verdict_success|]. intros j Hj. split.
    + apply verdict_goes_on, Hbefore. lia.
    + apply Hc; lia.
  - intros (k & Hk & Hv & Hbefore). exists k. split; [lia|].
    split; [by apply verdict_success|]. split.
    + intros j Hj. apply verdict_goes_on, Hbefore. lia.
    + intros j Hj Hj0. destruct j as [|j]; [lia|]. apply Hbefore. lia.
Qed.

Lemma Enqueue_started (pick : bool) (d : Dispatcher) (p : string) (t : bool) :
  queue_inv d -> started d ->
  exists d',
    Enqueue pick d p t
    = Returned d' (if (length (buf (workQueue d)) <? 100)%nat
                   then "Enqueued for upload: " +:+ p
                   else "Upload queue full, dropping: " +:+ p) /\
    queue_inv d' /\ started d' /\
    buf (workQueue d')
    = buf (workQueue d)
      ++ take (100 - length (buf (workQueue d)))
           [{| path := p; processedDueToTimeout := t |}].
Proof.
  intros Hinv [Hctx Hst]. pose proof Hinv as (Hcap & Hlen & Hcl).
  unfold Enqueue, select, send_ready. rewrite Hctx.
  destruct (closed (workQueue d)) eqn:Hclosed;
    [rewrite Hcl in Hst; done|].
  rewrite Hcap. cbn [orb].
  destruct (length (buf (workQueue d)) <? 100)%nat eqn:Hlt.
  - apply Nat.ltb_lt in Hlt. eexists. split; [done|].
    split; [|split; [done|]].
    + split; [|split]; simpl; [done | | done].
      rewrite length_app. simpl. lia.
    + cbn [workQueue with_queue buf]. rewrite take_ge; [done|]. simpl. lia.
  - apply Nat.ltb_ge in Hlt. exists d. split; [done|].
    split; [done|]. split; [done|].
    replace (100 - length (buf (workQueue d)))%nat with O by lia.
    by rewrite app_nil_r.
Qed.

Lemma EnqueueAll_started (pick : bool) (jobs : list fileEvent) :
  forall d,
    queue_inv d -> started d ->
    exists d',
      EnqueueAll pick d jobs = Some d' /\ queue_inv d' /\ started d' /\
      buf (workQueue d')
      = buf (workQueue d) ++ take (100 - length (buf (workQueue d))) jobs.
Proof.
  induction jobs as [|job jobs IH]; intros d Hinv Hst.
  { exists d. rewrite take_nil, app_nil_r. done. }
  destruct (Enqueue_started pick d (path job) (processedDueToTimeout job)
              Hinv Hst) as (d1 & HE & Hinv1 & Hst1 & Hbuf1).
  cbn [EnqueueAll]. rewrite HE.
  destruct (IH d1 Hinv1 Hst1) as (d2 & HA & Hinv2 & Hst2 & Hbuf2).
  exists d2. split; [done|]. split; [done|]. split; [done|].
  rewrite Hbuf2, Hbuf1. destruct job as [p t]. cbn [path processedDueToTimeout].
  destruct Hinv as (_ & Hlen & _).
  destruct (decide (length (buf (workQueue d)) < 100)%nat) as [Hlt | Hge].
  - rewrite (take_ge [_]) by (simpl; lia). rewrite length_app. cbn [length].
    replace (100 - length (buf (workQueue d)))%nat
      with (S (100 - (length (buf (workQueue d)) + 1)))%nat by lia.
    cbn [take]. by rewrite <- app_assoc.
  - replace (100 - length (buf (workQueue d)))%nat with O by lia.
    rewrite !take_0, !app_nil_r.
    replace (100 - length (buf (workQueue d)))%nat with O by lia.
    by rewrite take_0, app_nil_r.
Qed.

Lemma receiveAll_take (n : nat) :
  forall d, (receiveAll n d).1 = take n (buf (workQueue d)).
Proof.
  induction n as [|n IH]; intros d; [done|]. cbn [receiveAll].
  unfold receive. destruct (buf (workQueue d)) as [|e rest] eqn:Hb; [done|].
  specialize (IH (with_queue d {| buf := rest; cap := cap (workQueue d);
                                  closed := closed (workQueue d) |})).
  destruct (receiveAll n _) as [es d']. simpl in *. by rewrite IH.
Qed.

(** X12.  Jobs enqueued on a started dispatcher join the queue in their order
    as long as it holds fewer than 100; the rest is dropped.  Workers
    receive the jobs in the order of the queue. *)
Theorem EnqueueAll_fifo (pick : bool) (d : Dispatcher)
    (jobs : list fileEvent) (n : nat) :
  reachable d -> started d ->
  exists d',
    EnqueueAll pick d jobs = Some d' /\
    buf (workQueue d')
    = buf (workQueue d) ++ take (100 - length (buf (workQueue d))) jobs /\
    (receiveAll n d').1 = take n (buf (workQueue d')).
Proof.
  intros Hd Hst.
  destruct (EnqueueAll_started pick jobs d (reachable_queue_inv d Hd) Hst)
    as (d' & HA & _ & _ & Hbuf).
  exists d'. split; [done|]. split; [done|]. apply receiveAll_take.
Qed.

Lemma reachable_stopped_closed (d : Dispatcher) :
  reachable d -> stopped d = true -> closed (workQueue d) = true.
Proof.
  induction 1 as [mg | d _ IH | d _ IH | d _ IH | d _ IH
                 | d pick p t d' log _ IH HE | d e d' _ IH HR]; try done.
  - unfold cancel. by destruct (ctx d).
  - unfold Stop. destruct (stopped d) eqn:Hs; [intros _; by apply IH|]. done.
  - intros Hs. revert HE. unfold Enqueue, select, send_ready.
    destruct (ctx d); [done | |];
      destruct (closed (workQueue d)) eqn:Hc; cbn [orb];
      try destruct (_ <? _)%nat; try destruct pick;
      intros H; inversion H; subst; auto;
      simpl in Hs; rewrite IH in Hc; done.
  - unfold receive in HR. destruct (buf (workQueue d)); [done|].
    inversion HR; subst. simpl. exact IH.
Qed.

(** X13.  [Stop] is idempotent, and after it [Enqueue] never adds a job: the
    call finds the queue closed and either panics on the send or reports
    that the dispatcher is stopped, leaving the dispatcher as it is. *)
Theorem Stop_is_final (d : Dispatcher) :
  Stop (Stop d) = Stop d /\
  (reachable d ->
   forall pick p t,
     Enqueue pick (Stop d) p t = Panicked \/
     Enqueue pick (Stop d) p t
     = Returned (Stop d) ("Dispatcher stopped, cannot enqueue: " +:+ p)).
Proof.
  split.
  - unfold Stop. destruct (stopped d) eqn:Hs; [by rewrite Hs|]. done.
  - intros Hd pick p t.
    assert (Hcl : closed (workQueue (Stop d)) = true).
    { apply reachable_stopped_closed; [by constructor|].
      unfold Stop. by destruct (stopped d) eqn:Hs. }
    unfold Enqueue, select, send_ready. rewrite Hcl. cbn [orb].
    destruct (ctx (Stop d)); [by left | by left |].
    destruct pick; [by left | by right].
Qed.

(** X14.  The steps of a worker for one job are an initial part of: upload,
    success callback, shadow copy, removal.  The callback runs exactly
    when it is set and the upload succeeded, also for a job flagged as
    processed on timeout. *)
Theorem process_life_cycle (d : Dispatcher) (os : JobOs) (event : fileEvent) :
  (exists streaming,
      process d os event `prefix_of` full_life_cycle d event streaming) /\
  (forall p, ActCallback p ∈ process d os event <->
             p = path event /\ onSuccessfulUpload d = true /\
             upload_succeeded os).
Proof.
  unfold process, full_life_cycle, upload_succeeded.
  destruct (statBeforeUpload os) as [fileInfo|].
  2:{ split; [exists false; apply prefix_nil|].
      intros p. split; [by intros ?%elem_of_nil | by intros (_ & _ & ? & _)]. }
  set (streaming := Watcher.Size fileInfo >? 100 * 1024 * 1024).
  destruct (Upload os) as [e|].
  { split; [exists streaming; apply prefix_cons, prefix_nil|].
    intros p. split; [|by intros (_ & _ & _ & ?)].
    intros H%list_elem_of_singleton. discriminate. }
  split.
  - exists streaming.
    destruct (processedDueToTimeout event);
      [apply prefix_cons, prefix_app_r; done|].
    destruct (statBeforeShadow os);
      [|apply prefix_cons, prefix_app_r; done].
    change (ActUpload (path event) streaming ::
            (if onSuccessfulUpload d then [ActCallback (path event)] else [])
            ++ [ActStore (path event); ActRemove (path event)])
      with ((ActUpload (path event) streaming ::
             (if onSuccessfulUpload d then [ActCallback (path event)] else []))
            ++ [ActStore (path event); ActRemove (path event)]).
    destruct (Shadow.Store _ _ _ _ _).2;
      [apply prefix_app, prefix_cons, prefix_nil|].
    destruct (statBeforeDelete os);
      [|apply prefix_app, prefix_cons, prefix_nil].
    destruct (_ || _); [apply prefix_app, prefix_cons, prefix_nil|].
    rewrite <- app_assoc. done.
  - intros p.
    assert (Hiff : ActCallback p ∈
                   ActUpload (path event) streaming ::
                   (if onSuccessfulUpload d
                    then [ActCallback (path event)] else []) <->
                   p = path event /\ onSuccessfulUpload d = true /\
                   Some fileInfo <> None /\ @None UploadError = None).
    { destruct (onSuccessfulUpload d).
      - split.
        + intros [H | H%list_elem_of_singleton]%elem_of_cons; [done|].
          by inversion H.
        + intros (-> & _). apply list_elem_of_further, list_elem_of_here.
      - split; [|by intros (_ & ? & _)].
        intros [H | H%elem_of_nil]%elem_of_cons; done. }
    assert (Hmore : forall l,
      (forall a, a ∈ l -> a = ActStore (path event) \/ a = ActRemove (path event)) ->
      ActCallback p ∈
        (ActUpload (path event) streaming ::
         (if onSuccessfulUpload d then [ActCallback (path event)] else []))
        ++ l <->
      p = path event /\ onSuccessfulUpload d = true /\
      Some fileInfo <> None /\ @None UploadError = None).
    { intros l Hl. rewrite <- Hiff. rewrite elem_of_app. split; [|by left].
      intros [H | H]; [done|]. destruct (Hl _ H); discriminate. }
    destruct (processedDueToTimeout event); [exact Hiff|].
    destruct (statBeforeShadow os); [|exact Hiff].
    destruct (Shadow.Store _ _ _ _ _).2.
    { apply Hmore. intros a ->%list_elem_of_singleton. by left. }
    destruct (statBeforeDelete os).
    2:{ apply Hmore. intros a ->%list_elem_of_singleton. by left. }
    destruct (_ || _).
    { apply Hmore. intros a ->%list_elem_of_singleton. by left. }
    rewrite <- app_assoc. apply Hmore.
    intros a [-> | ->%list_elem_of_singleton]%elem_of_cons; auto.
Qed.

End UploaderSequences.

(* ===================================================================== *)
(** * Ingress: what the sanitizers accept, and what a request does to the
      files *)
(* ===================================================================== *)

Section Acceptance.
Import GoStrings Filepath Ingress.

#[local] Arguments Ascii.eqb : simpl never.

Lemma Join_Split (s : string) : GoStrings.Join (Split s "/") "/" = s.
Proof.
  induction s as [|c s IH]; [done|]. cbn [Split].
  destruct (Split_cons s) as (h & t & Hs). rewrite Hs in *.
  destruct (Ascii.eqb c "/") eqn:Hc.
  - apply Ascii.eqb_eq in Hc as ->. rewrite Join_cons_cons, IH. done.
  - destruct t as [|e' t].
    + cbn [GoStrings.Join] in *. by rewrite IH.
    + rewrite Join_cons_cons in *. by rewrite app_cons_s, IH.
Qed.

Lemma Clean_plain_elems (s : string) :
  Forall plain (Split s "/") -> Clean s = s.
Proof.
  intros Hplain. destruct (Split_cons s) as (e & parts & Hs).
  pose proof Hplain as Hp. rewrite Hs in Hp.
  pose proof Hp as [He _]%Forall_cons.
  pose proof (plain_not_rooted e parts He) as Hr.
  rewrite <- Hs, Join_Split in Hr.
  rewrite <- (Join_Split s) at 2. rewrite Hs.
  apply Clean_of_relative; [|done|].
  - intros ->. inversion Hs; subst. by destruct He.
  - change Separator with "/"%char. rewrite Hs. unfold clean_elems.
    by rewrite clean_fold_plain.
Qed.

Lemma bad_component_plain (parts : list string) :
  Forall plain parts -> bad_component parts = None.
Proof.
  induction 1 as [|e parts (H1 & H2 & H3 & _) _ IH]; [done|]. simpl.
  apply String.eqb_neq in H1, H2, H3. by rewrite H1, H2, H3.
Qed.

(** X15.  [sanitizeFilename] accepts exactly the names that are not empty, not
    [.] or [..], and hold no null byte, no slash, no backslash and no two
    dots in a row; an accepted name is returned as it is. *)
Theorem sanitizeFilename_accepts_iff (filename safe : string) :
  sanitizeFilename filename = Ok safe <->
  safe = filename /\ plain filename /\
  Contains filename NUL = false /\ Contains filename ".." = false /\
  Contains filename "\" = false.
Proof.
  unfold sanitizeFilename. split.
  - intros H.
    destruct (Contains filename NUL); [done|].
    destruct (String.eqb filename "") eqn:H1; [done|].
    destruct (Contains filename ".."); [done|].
    destruct (Contains filename "/") eqn:H2; [done|].
    destruct (Contains filename "\"); [done|]. cbn [orb] in H.
    destruct (String.eqb filename ".") eqn:H3; [done|].
    destruct (String.eqb filename "..") eqn:H4; [done|]. cbn [orb] in H.
    destruct (negb _); [done|]. inversion H; subst.
    apply String.eqb_neq in H1, H3, H4. done.
  - intros (-> & Hplain & -> & -> & ->).
    pose proof Hplain as (H1 & H2 & H3 & H4).
    apply String.eqb_neq in H1, H2, H3. rewrite H1, H2, H3, H4. cbn [orb].
    rewrite Clean_plain_elems, String.eqb_refl; [done|].
    rewrite Split_no_sep by done. by constructor.
Qed.

(** X16.  [sanitizeSubdirectoryPath] accepts exactly the paths without a null
    byte and without two dots in a row whose pieces between the slashes
    are all ordinary elements (so no leading, trailing or doubled slash);
    an accepted path is returned as it is. *)
Theorem sanitizeSubdirectoryPath_accepts_iff (subdir safe : string) :
  sanitizeSubdirectoryPath subdir = Ok safe <->
  safe = subdir /\ Contains subdir NUL = false /\
  Contains subdir ".." = false /\ Forall plain (Split subdir "/").
Proof.
  unfold sanitizeSubdirectoryPath, ToSlash, FromSlash, IsAbs. split.
  - intros H.
    destruct (Contains subdir NUL); [done|].
    destruct (String.eqb subdir "") eqn:Hne; [done|].
    destruct (Contains subdir ".."); [done|].
    destruct (HasPrefix subdir "/") eqn:Hr; [done|]. cbn [orb] in H.
    destruct (bad_component (Split subdir "/")) eqn:Hbad; [done|].
    destruct (_ || _); [done|]. inversion H; subst. clear H.
    apply bad_component_none in Hbad.
    pose proof (Split_elems subdir) as Hsep.
    assert (Hplain : Forall plain (Split subdir "/")).
    { apply Forall_forall. intros x Hx.
      rewrite Forall_forall in Hbad, Hsep.
      destruct (Hbad x Hx) as (? & ? & ?). specialize (Hsep x Hx). done. }
    split; [by apply Clean_plain_elems | done].
  - intros (-> & -> & Hdots & Hplain). rewrite Hdots.
    destruct (Split_cons subdir) as (e & parts & Hs).
    pose proof Hplain as Hp. rewrite Hs in Hp.
    pose proof Hp as [He _]%Forall_cons.
    pose proof (plain_not_rooted e parts He) as Hr.
    rewrite <- Hs, Join_Split in Hr.
    assert (Hne : String.eqb subdir "" = false).
    { apply String.eqb_neq. intros ->. inversion Hs; subst. by destruct He. }
    rewrite Hne, Hr. cbn [orb].
    rewrite bad_component_plain by done.
    rewrite Clean_plain_elems by done. by rewrite Hdots, Hr.
Qed.

End Acceptance.

Section Requests.
Import GoStrings Filepath Ingress.

#[local] Arguments Ascii.eqb : simpl never.







Lemma dirMap_fold (directories : list Config.DirectoryConfig) :
  forall (m : gmap string Config.DirectoryConfig) (name : string),
    fold_left (fun m dir => <[Config.Name dir := dir]> m) directories m
      !! name
    = match last (filter (fun dir => Config.Name dir = name) directories) with
      | Some dir => Some dir
      | None => m !! name
      end.
Proof.
  induction directories as [|dir rest IH]; intros m name; [done|].
  cbn [fold_left]. rewrite IH, filter_cons.
  destruct (decide (Config.Name dir = name)) as [Heq | Hne].
  - rewrite last_cons.
    destruct (last (filter _ rest)); [done|].
    by rewrite Heq, lookup_insert_eq.
  - destruct (last (filter _ rest)); [done|].
    by rewrite lookup_insert_ne.
Qed.

(** X20.  [NewServer] fails only when the temp directory cannot be made.  The
    server it returns knows exactly the configured names, and a name that
    is configured more than once is bound to its last entry. *)
Theorem NewServer_last_binding_wins (mkdirAllFails : bool)
    (tempDir : string) (getwd : option string)
    (dirs : list Config.DirectoryConfig) :
  if mkdirAllFails
  then NewServer mkdirAllFails tempDir getwd dirs
       = Err "failed to create temp directory"
  else exists s,
      NewServer mkdirAllFails tempDir getwd dirs = Ok s /\
      TempDir s = tempDir /\
      forall name,
        directories s !! name
        = last (filter (fun dir => Config.Name dir = name) dirs).
Proof.
  unfold NewServer. destruct mkdirAllFails; [done|].
  eexists. split; [done|]. split; [done|]. intros name. cbn [directories].
  unfold dirMap. rewrite dirMap_fold.
  by destruct (last _).
Qed.

End Requests.

Section RequestExamples.
Import GoStrings Filepath Ingress.


End RequestExamples.

(* ===================================================================== *)
(** * Validated configurations *)
(* ===================================================================== *)

Section Validation.
Import Watcher.



End Validation.

(* ===================================================================== *)
(** * The service: the watcher's handler and the dispatcher's queue *)
(* ===================================================================== *)

Section Handover.
Import Watcher Uploader Service.

Variable Match : string -> string -> bool * bool.

Lemma EnqueueAll_reachable (pick : bool) (jobs : list fileEvent) :
  forall d d',
    reachable d -> EnqueueAll pick d jobs = Some d' -> reachable d'.
Proof.
  induction jobs as [|job jobs IH]; intros d d' Hd; cbn [EnqueueAll].
  { intros H. inversion H; subst. exact Hd. }
  destruct (Enqueue pick d _ _) as [d1 log| |] eqn:HE; [|done..].
  apply IH. by eapply reach_enqueue.
Qed.

(** X22.  A job that arrives while the queue of a started dispatcher holds 100
    jobs is dropped, yet the handler of the service returns nil.  The
    watcher therefore marks the path enqueued, and while the mark stands
    every visit of the scan and every notification for the path is
    skipped. *)
Theorem dropped_job_stays_marked (pick : bool) (d : Dispatcher)
    (w : LinuxWatcher) (event : FileEvent) :
  reachable d -> started d -> length (buf (workQueue d)) = 100%nat ->
  fileHandler pick d event = Some (d, None) /\
  let w' := deliver w (Path event) (handler_failed (d, None)) in
  Path event ∈ enqueuedFiles w' /\
  (forall fuel info walkErr os,
      reconcileVisit Match fuel w' (Path event) info walkErr os
      = Some (w', [])) /\
  (forall fuel notified os,
      Name notified = Path event ->
      handleHybridEvent Match fuel w' notified os = Some (w', [], None)).
Proof.
  intros Hd Hst Hfull.
  pose proof (reachable_queue_inv d Hd) as (Hcap & _ & Hcl).
  destruct Hst as [Hctx Hstop].
  assert (HE' : Enqueue pick d (Path event) (ProcessedDueToTimeout event)
                = Returned d ("Upload queue full, dropping: " +:+ Path event)).
  { unfold Enqueue, select, send_ready. rewrite Hctx, Hcap, Hfull.
    destruct (closed (workQueue d)) eqn:Hc; [rewrite Hcl in Hstop; done|].
    done. }
  split; [unfold fileHandler; by rewrite HE'|].
  cbn zeta. unfold handler_failed, deliver. cbn [snd].
  assert (Hin : Path event ∈ enqueuedFiles (store_enqueued w (Path event))).
  { simpl. set_solver. }
  split; [done|]. split.
  - intros fuel info walkErr os. unfold reconcileVisit, scan_visit.
    destruct walkErr; [done|]. destruct (negb (IsRegular info)); [done|].
    destruct (ShouldIgnore _ _ _); [done|].
    by rewrite bool_decide_eq_true_2.
  - intros fuel notified os Hn. unfold handleHybridEvent. rewrite Hn.
    by rewrite bool_decide_eq_true_2.
Qed.

End Handover.

Section HandoverExamples.
Import Watcher Uploader Service.

Lemma started_dispatcher_reachable :
  reachable (Start (NewDispatcher Shadow.archiver)).
Proof. apply reach_start, reach_new. Defined.

Lemma busy_dispatcher_reachable : reachable busy_dispatcher.
Proof.
  apply (EnqueueAll_reachable true hundred_jobs
           (Start (NewDispatcher Shadow.archiver)) busy_dispatcher
           started_dispatcher_reachable).
  vm_compute. reflexivity.
Defined.

Lemma EnqueueAll_fifo_witness :
  reachable (Start (NewDispatcher Shadow.archiver)) /\
  started (Start (NewDispatcher Shadow.archiver)) /\
  exists d',
    EnqueueAll true (Start (NewDispatcher Shadow.archiver)) hundred_jobs
    = Some d' /\
    buf (workQueue d')
    = buf (workQueue (Start (NewDispatcher Shadow.archiver)))
      ++ take (100 - length (buf (workQueue
                                    (Start (NewDispatcher Shadow.archiver)))))
           hundred_jobs /\
    (receiveAll 2 d').1 = take 2 (buf (workQueue d')).
Proof.
  assert (H : started (Start (NewDispatcher Shadow.archiver)))
    by (split; reflexivity).
  split; [exact started_dispatcher_reachable|]. split; [exact H|].
  exact (EnqueueAll_fifo true (Start (NewDispatcher Shadow.archiver))
           hundred_jobs 2 started_dispatcher_reachable H).
Defined.

Lemma dropped_job_stays_marked_witness :
  reachable busy_dispatcher /\ started busy_dispatcher /\
  length (buf (workQueue busy_dispatcher)) = 100%nat /\
  (fileHandler true busy_dispatcher
     {| Path := "/data/in/a.txt"; IsRename := false; Timestamp := 42;
        ProcessedDueToTimeout := false |}
   = Some (busy_dispatcher, None) /\
   let w' := deliver quiet_watcher "/data/in/a.txt"
               (handler_failed (busy_dispatcher, None)) in
   "/data/in/a.txt" ∈ enqueuedFiles w' /\
   (forall fuel info walkErr os,
       reconcileVisit literal_match fuel w' "/data/in/a.txt" info walkErr os
       = Some (w', [])) /\
   (forall fuel notified os,
       Name notified = "/data/in/a.txt" ->
       handleHybridEvent literal_match fuel w' notified os
       = Some (w', [], None))).
Proof.
  assert (H1 : started busy_dispatcher) by (split; reflexivity).
  assert (H2 : length (buf (workQueue busy_dispatcher)) = 100%nat)
    by reflexivity.
  split; [exact busy_dispatcher_reachable|]. split; [exact H1|].
  split; [exact H2|].
  exact (dropped_job_stays_marked literal_match true busy_dispatcher
           quiet_watcher
           {| Path := "/data/in/a.txt"; IsRename := false; Timestamp := 42;
              ProcessedDueToTimeout := false |}
           busy_dispatcher_reachable H1 H2).
Defined.

End HandoverExamples.
